(** * The ECMWF download pipeline: partition expansion, skip check and
      manifest-bracketed fetch

    A shallow embedding of [ecmwf_pipeline/download_pipeline/pipeline.py]
    ([prepare_target_name], [skip_partition], [prepare_partition],
    [fetch_data] and the resolution part of [run]) together with the
    properties the design document states about them.

    Python dictionaries whose iteration order the code observes (the
    [parameters] section, iterated with [.items()]) are ordered association
    lists; the [selection] section, which the code only reads and writes by
    key, is a finite map.  Exceptions are an explicit error result.  The
    generator [prepare_partition] is a function to the trace of its
    observable events ([manifest.schedule] calls and [yield]s) and the
    exception, if any, that ends it.

    The second part embeds the schema inference and row extraction of
    [netcdf_loader/loader_pipeline/netcdf_loader.py] ([open_dataset],
    [map_dtype_to_sql_type], [dataset_to_table_schema],
    [to_json_serializable_type], [extract_rows_as_dicts]); what xarray,
    pandas and Cloud Storage do is taken as given functions. *)

From Stdlib.Strings Require Import Ascii Byte.
From stdpp Require Import gmap strings list fin_maps.

(** ** Exceptions and results *)

Inductive exn : Type :=
| KeyError (k : string)
| IndexError
| ValueError
| AttributeError
| TypeError
| ConcurrentDownloadError
| ClientError (msg : string)
| StoreError (msg : string)
| ConfigurationError
    (* the design document's name for configuration failures; no statement
       of pipeline.py raises it *)
| UnmodelledFormat
    (* a replacement field with a conversion, a format spec, an
       attribute/index accessor or a non-ASCII character: outside the
       fragment of [str.format] embedded below *).

Inductive result (A : Type) : Type :=
| Ok (a : A)
| Raise (e : exn).
Arguments Ok {A} a.
Arguments Raise {A} e.

#[global] Instance result_ret : MRet result := λ A a, Ok a.
#[global] Instance result_bind : MBind result := λ A B f r,
  match r with
  | Ok a => f a
  | Raise e => Raise e
  end.

Definition is_ok {A} (r : result A) : Prop := ∃ a, r = Ok a.

(** ** Configuration values *)

#[warnings="-register-all"]
Inductive value : Type :=
| VNone
| VBool (b : bool)
| VInt (n : Z)
| VStr (s : string)
| VList (l : list string)
| VDict (d : list (string * value)).

(** The [parameters] section and its sub-sections: insertion-ordered. *)
Abbreviation dict := (list (string * value)).

(** The [selection] section. *)
Abbreviation selection_t := (gmap string (list string)).

Record Config : Type := mkConfig {
  selection : option selection_t;   (* absent when the key is missing *)
  parameters : dict
}.

(** Python truthiness, as used by [if config['parameters']['force_download']]. *)
Definition truthy (v : value) : bool :=
  match v with
  | VNone => false
  | VBool b => b
  | VInt n => negb (n =? 0)%Z
  | VStr s => negb (String.eqb s "")
  | VList l => match l with [] => false | _ => true end
  | VDict d => match d with [] => false | _ => true end
  end.

(** *** Dictionary operations on the ordered representation *)

Fixpoint dict_get (k : string) (d : dict) : option value :=
  match d with
  | [] => None
  | (k', v) :: d' => if String.eqb k k' then Some v else dict_get k d'
  end.

(** [d[k]] *)
Definition getitem (k : string) (d : dict) : result value :=
  match dict_get k d with
  | Some v => Ok v
  | None => Raise (KeyError k)
  end.

(** [k in d.keys()] *)
Definition dict_mem (k : string) (d : dict) : bool :=
  match dict_get k d with Some _ => true | None => false end.

(** [d[k] = v]: an existing key keeps its position, a new one goes last. *)
Fixpoint dict_set (k : string) (v : value) (d : dict) : dict :=
  match d with
  | [] => [(k, v)]
  | (k', v') :: d' =>
      if String.eqb k k' then (k', v) :: d' else (k', v') :: dict_set k v d'
  end.

(** [d.update(p)] *)
Definition dict_update (d p : dict) : dict :=
  foldl (λ acc kv, dict_set kv.1 kv.2 acc) d p.

(** [config['selection']] *)
Definition getitem_selection (config : Config) : result selection_t :=
  match selection config with
  | Some s => Ok s
  | None => Raise (KeyError "selection")
  end.

(** [sel[key]] *)
Definition sel_getitem (key : string) (sel : selection_t) : result (list string) :=
  match sel !! key with
  | Some vs => Ok vs
  | None => Raise (KeyError key)
  end.

(** [vs[0]] *)
Definition first_value (vs : list string) : result string :=
  match vs with
  | v :: _ => Ok v
  | [] => Raise IndexError
  end.

(** Iterating the object bound to [partition_keys]: a list yields its items,
    a string its characters, a dict its keys; the scalars are not iterable. *)
Fixpoint chars (s : string) : list string :=
  match s with
  | EmptyString => []
  | String c s' => String c "" :: chars s'
  end.

Definition iter_keys (v : value) : result (list string) :=
  match v with
  | VList l => Ok l
  | VStr s => Ok (chars s)
  | VDict d => Ok (d.*1)
  | VNone | VBool _ | VInt _ => Raise TypeError
  end.

(** [for x in xs: f(x)] collecting results, stopping at the first exception. *)
Fixpoint mapM {A B} (f : A → result B) (xs : list A) : result (list B) :=
  match xs with
  | [] => Ok []
  | x :: xs' => y ← f x; ys ← mapM f xs'; Ok (y :: ys)
  end.

(** ** [str.format] with positional arguments

    The fragment embedded: literal text, the escapes [{{] and [}}], and
    replacement fields [{}] (automatic numbering), [{N}] (explicit index)
    and [{name}] (a keyword, which is always missing since the pipeline
    passes positional arguments only).  The scan is left to right and stops
    at the first error, as CPython's does.  An explicit index above
    [PY_SSIZE_T_MAX] is rejected with a [ValueError], as CPython does
    (the bound is that of a 64-bit build).  A replacement field with a
    conversion, a format spec, an attribute or index accessor, or a
    non-ASCII character (CPython also reads non-ASCII decimal digits as an
    index) is outside the fragment and evaluates to [UnmodelledFormat]. *)

Inductive numbering : Type :=
| NumInit
| NumAuto (next : nat)
| NumManual.

Definition is_digit (c : ascii) : bool :=
  let n := nat_of_ascii c in (48 <=? n) && (n <=? 57).

Fixpoint all_digits (s : string) : bool :=
  match s with
  | EmptyString => true
  | String c s' => is_digit c && all_digits s'
  end.

Fixpoint decimal_acc (acc : N) (s : string) : N :=
  match s with
  | EmptyString => acc
  | String c s' => decimal_acc (10 * acc + (N_of_ascii c - 48))%N s'
  end.

Definition PY_SSIZE_T_MAX : N := 9223372036854775807.

Definition unmodelled_char (c : ascii) : bool :=
  (Ascii.eqb c ":" || Ascii.eqb c "!" || Ascii.eqb c "." || Ascii.eqb c "["
   || (127 <? N_of_ascii c)%N)%bool.

(** Resolve one replacement field: the argument index and the new numbering
    state. *)
Definition resolve_field (name : string) (st : numbering)
  : result (N * numbering) :=
  match name with
  | EmptyString =>
      match st with
      | NumInit => Ok (0%N, NumAuto 1)
      | NumAuto n => Ok (N.of_nat n, NumAuto (S n))
      | NumManual => Raise ValueError
      end
  | _ =>
      if all_digits name then
        if (PY_SSIZE_T_MAX <? decimal_acc 0 name)%N then Raise ValueError
        else
          match st with
          | NumInit | NumManual => Ok (decimal_acc 0 name, NumManual)
          | NumAuto _ => Raise ValueError
          end
      else Raise (KeyError name)
  end.

Definition render_field (name : string) (st : numbering) (args : list string)
  : result (string * numbering) :=
  '(idx, st') ← resolve_field name st;
  if (N.of_nat (length args) <=? idx)%N then Raise IndexError
  else
    match args !! N.to_nat idx with
    | Some a => Ok (a, st')
    | None => Raise IndexError
    end.

(** [field = None]: scanning literal text; [field = Some name]: inside a
    replacement field whose name so far is [name]. *)
Fixpoint format_go (s : string) (field : option string) (st : numbering)
    (args : list string) : result string :=
  match field with
  | None =>
      match s with
      | EmptyString => Ok ""
      | String "{" (String "{" rest) =>
          out ← format_go rest None st args; Ok (String "{" out)
      | String "}" (String "}" rest) =>
          out ← format_go rest None st args; Ok (String "}" out)
      | String "}" _ => Raise ValueError
      | String "{" EmptyString => Raise ValueError
      | String "{" rest => format_go rest (Some "") st args
      | String c rest =>
          out ← format_go rest None st args; Ok (String c out)
      end
  | Some name =>
      match s with
      | EmptyString => Raise ValueError
      | String "}" rest =>
          '(a, st') ← render_field name st args;
          out ← format_go rest None st' args;
          Ok (a +:+ out)
      | String "{" _ => Raise ValueError
      | String c rest =>
          if unmodelled_char c then Raise UnmodelledFormat
          else format_go rest (Some (name +:+ String c "")) st args
      end
  end.

Definition format (template : string) (args : list string) : result string :=
  format_go template None NumInit args.

(** The [format] method applied to positional arguments: only [str] has it. *)
Definition value_format (v : value) (args : list string) : result string :=
  match v with
  | VStr template => format template args
  | _ => Raise AttributeError
  end.

(** [config['parameters']['partition_keys']], iterated. *)
Definition partition_keys_of (config : Config) : result (list string) :=
  getitem "partition_keys" (parameters config) ≫= iter_keys.

(** [config.get('selection', {})] *)
Definition selection_of (config : Config) : selection_t :=
  default ∅ (selection config).

(** ** The Target Namer *)

(** [config['selection'][key][0]] *)
Definition key_value (config : Config) (key : string) : result string :=
  sel ← getitem_selection config;
  vs ← sel_getitem key sel;
  first_value vs.

Definition prepare_target_name (config : Config) : result string :=
  partition_keys ← partition_keys_of config;
  partition_key_values ← mapM (key_value config) partition_keys;
  template ← getitem "target_template" (parameters config);
  value_format template partition_key_values.

(** ** The blob store, as far as the pipeline uses it *)

Record Store : Type := mkStore {
  (* [store.exists(target)] *)
  store_exists : string → bool;
  (* [store.open(target, 'wb')] followed by one [write] per chunk *)
  upload : string → list (list Byte.byte) → result unit
}.

(** ** The Skip Oracle *)

Definition skip_partition (config : Config) (store : Store) : result bool :=
  if negb (dict_mem "force_download" (parameters config)) then Ok false
  else
    fd ← getitem "force_download" (parameters config);
    if truthy fd then Ok false
    else
      target ← prepare_target_name config;
      if store_exists store target then Ok true else Ok false.

(** ** The Selection Expander *)

(** [itertools.product] over the pools, as the library documents it: the result
    starts as one empty tuple and every pool extends each tuple built so
    far by each of its values. *)
Definition product {A} (pools : list (list A)) : list (list A) :=
  foldl (λ result pool, x ← result; y ← pool; [x ++ [y]]) [[]] pools.

(** The odometer reading of the product: the first pool varies slowest. *)
Fixpoint product_rec {A} (pools : list (list A)) : list (list A) :=
  match pools with
  | [] => [[]]
  | pool :: pools' => x ← pool; (λ t, x :: t) <$> product_rec pools'
  end.

(** The iterator bound to [params_loop]: [itertools.cycle(extra_params)]
    hands out the items not yet seen, then replays the saved ones for
    ever; [itertools.repeat({})] always hands out the empty dict. *)
Inductive params_iter : Type :=
| Cycle (pending saved : list dict)
| Repeat (d : dict).

Definition cycle (l : list dict) : params_iter := Cycle l l.

Definition params_next (it : params_iter) : option (dict * params_iter) :=
  match it with
  | Cycle (x :: pending) saved => Some (x, Cycle pending saved)
  | Cycle [] (x :: pending) => Some (x, Cycle pending (x :: pending))
  | Cycle [] [] => None
  | Repeat d => Some (d, Repeat d)
  end.

(** The sub-sections of [parameters], in the order [.items()] lists them. *)
Definition extra_params (ps : dict) : list dict :=
  omap (λ kv, match kv.2 with VDict d => Some d | _ => None end) ps.

Definition make_params_loop (extra : list dict) : params_iter :=
  match extra with
  | [] => Repeat []
  | _ => cycle extra
  end.

(** [for idx, key in enumerate(partition_keys): copy[key] = [option[idx]]] *)
Fixpoint narrow_from (idx : nat) (partition_keys option : list string)
    (copy : selection_t) : result selection_t :=
  match partition_keys with
  | [] => Ok copy
  | key :: keys' =>
      match option !! idx with
      | Some v => narrow_from (S idx) keys' option (<[key := [v]]> copy)
      | None => Raise IndexError
      end
  end.

Definition narrow := narrow_from 0.

(** [d.get(k, default)] *)
Definition dict_get_default (k : string) (default : value) (d : dict) : value :=
  match dict_get k d with
  | Some v => v
  | None => default
  end.

(** The user a configuration's manifest entries are filed under. *)
Definition user_of (config : Config) : value :=
  dict_get_default "user_id" (VStr "unknown") (parameters config).

(** What a consumer of the generator and the manifest observe, in order. *)
Inductive event : Type :=
| Scheduled (sel : selection_t) (location : string) (user : value)
| Yielded (out : Config).

(** The configuration the loop body builds before the skip check. *)
Definition make_out (config : Config) (copy : selection_t) (params : dict)
  : Config :=
  {| selection := Some copy;
     parameters := dict_update (parameters config) params |}.

(** The [for option, params in zip(fan_out, params_loop)] loop.  [selection]
    is the local variable of that name, which the body rebinds to the last
    narrowed copy. *)
Fixpoint partition_loop (config : Config) (store : Store)
    (partition_keys : list string) (fan_out : list (list string))
    (params_loop : params_iter) (selection : selection_t)
  : list event * option exn :=
  match fan_out with
  | [] => ([], None)
  | option :: fan_out' =>
      match params_next params_loop with
      | None => ([], None)
      | Some (params, params_loop') =>
          match narrow partition_keys option selection with
          | Raise e => ([], Some e)
          | Ok copy =>
              let out := make_out config copy params in
              match skip_partition out store with
              | Raise e => ([], Some e)
              | Ok true =>
                  partition_loop config store partition_keys fan_out'
                    params_loop' selection
              | Ok false =>
                  match prepare_target_name out with
                  | Raise e => ([], Some e)
                  | Ok location =>
                      let user := user_of out in
                      let rest :=
                        partition_loop config store partition_keys fan_out'
                          params_loop' copy in
                      (Scheduled copy location user :: Yielded out :: rest.1,
                       rest.2)
                  end
              end
          end
      end
  end.

Definition prepare_partition (config : Config) (store : Store)
  : list event * option exn :=
  match partition_keys_of config with
  | Raise e => ([], Some e)
  | Ok partition_keys =>
      let selection := selection_of config in
      match mapM (λ key, sel_getitem key selection) partition_keys with
      | Raise e => ([], Some e)
      | Ok pools =>
          let fan_out := product pools in
          let params_loop := make_params_loop (extra_params (parameters config)) in
          partition_loop config store partition_keys fan_out params_loop
            selection
      end
  end.

(** The partitions a consumer receives. *)
Definition yielded (evs : list event) : list Config :=
  omap (λ ev, match ev with Yielded out => Some out | _ => None end) evs.

(** The candidate configurations, one per combination of the product, as
    a list: the [i]-th option of the product narrowed into the original
    selection, overlaid with the [i]-th item of [params_loop].
    [prepare_partition_emit] below shows that the loop builds exactly
    these and treats them as [emit] does. *)
Definition narrowed (partition_keys option : list string) (sel : selection_t)
  : selection_t :=
  foldl (λ m kv, <[kv.1 := [kv.2]]> m) sel (zip partition_keys option).

Fixpoint params_take (n : nat) (it : params_iter) : list dict :=
  match n with
  | 0 => []
  | S n' =>
      match params_next it with
      | Some (x, it') => x :: params_take n' it'
      | None => []
      end
  end.

Definition candidates_of (config : Config) (partition_keys : list string)
    (pools : list (list string)) : list Config :=
  let fan_out := product pools in
  zip_with (λ option params,
              make_out config
                (narrowed partition_keys option (selection_of config))
                params)
    fan_out
    (params_take (length fan_out)
       (make_params_loop (extra_params (parameters config)))).

Definition candidates (config : Config) : list Config :=
  match partition_keys_of config with
  | Raise _ => []
  | Ok partition_keys =>
      match mapM (λ key, sel_getitem key (selection_of config))
              partition_keys with
      | Raise _ => []
      | Ok pools => candidates_of config partition_keys pools
      end
  end.

Fixpoint emit (store : Store) (outs : list Config) : list event * option exn :=
  match outs with
  | [] => ([], None)
  | out :: outs' =>
      match skip_partition out store with
      | Raise e => ([], Some e)
      | Ok true => emit store outs'
      | Ok false =>
          match prepare_target_name out with
          | Raise e => ([], Some e)
          | Ok location =>
              let rest := emit store outs' in
              (Scheduled (selection_of out) location (user_of out)
                 :: Yielded out :: rest.1,
               rest.2)
          end
      end
  end.

(** A candidate the skip check filters. *)
Definition is_skipped (store : Store) (out : Config) : bool :=
  match skip_partition out store with
  | Ok true => true
  | _ => false
  end.

(** ** The Manifest interface and the Fetch Executor *)

Inductive Status : Type :=
| scheduled
| in_progress
| success
| failure (error : exn).

(** The capabilities pipeline.py uses: [schedule], and [transact] as a
    context manager ([transact_enter] is its [__enter__]; [transact_exit]
    is its [__exit__], told the exception the body raised, if any, and
    answering whether to suppress it). *)
Class Manifest (M : Type) : Type := {
  schedule : selection_t → string → value → M → M;
  transact_enter : selection_t → string → value → M → result M;
  transact_exit : selection_t → string → value → option exn → M → M * bool;
  status : selection_t → string → value → M → option Status
}.

(** [with manifest.transact(selection, target, user): body], by the
    semantics of Python's [with] statement. *)
Definition with_transact `{Manifest M} (sel : selection_t) (target : string)
    (user : value) (body : result unit) (manifest : M) : result unit * M :=
  match transact_enter sel target user manifest with
  | Raise e => (Raise e, manifest)
  | Ok m1 =>
      match body with
      | Ok _ => (Ok (), (transact_exit sel target user None m1).1)
      | Raise e =>
          let '(m2, suppress) := transact_exit sel target user (Some e) m1 in
          (if suppress then Ok () else Raise e, m2)
      end
  end.

Record Client : Type := mkClient {
  (* [retrieve(dataset, selection, path)]: the bytes left in the file at
     [path], or the exception raised *)
  retrieve : value → selection_t → result (list Byte.byte)
}.

Definition chunk_size : nat := Z.to_nat 8192.

(** [while True: chunk = temp.read(8192); if len(chunk) == 0: break; ...] *)
Fixpoint read_chunks (fuel : nat) (data : list Byte.byte)
  : list (list Byte.byte) :=
  match fuel with
  | 0 => []
  | S fuel' =>
      let chunk := take chunk_size data in
      match chunk with
      | [] => []
      | _ => chunk :: read_chunks fuel' (drop chunk_size data)
      end
  end.

Definition fetch_body (dataset : value) (sel : selection_t) (target : string)
    (client : Client) (store : Store) : result unit :=
  data ← retrieve client dataset sel;
  upload store target (read_chunks (S (length data)) data).

Definition fetch_data `{Manifest M} (config : Config) (client : Client)
    (manifest : M) (store : Store) : result unit * M :=
  let dataset := dict_get_default "dataset" (VStr "") (parameters config) in
  match prepare_target_name config with
  | Raise e => (Raise e, manifest)
  | Ok target =>
      match getitem_selection config with
      | Raise e => (Raise e, manifest)
      | Ok sel =>
          let user := user_of config in
          with_transact sel target user
            (fetch_body dataset sel target client store) manifest
      end
  end.

(** *** An in-memory manifest *)

Fixpoint value_eqb (v w : value) : bool :=
  match v, w with
  | VNone, VNone => true
  | VBool a, VBool b => Bool.eqb a b
  | VInt a, VInt b => (a =? b)%Z
  | VStr a, VStr b => String.eqb a b
  | VList a, VList b => bool_decide (a = b)
  | VDict a, VDict b =>
      (fix go (a b : dict) : bool :=
         match a, b with
         | [], [] => true
         | (k, x) :: a', (l, y) :: b' =>
             String.eqb k l && value_eqb x y && go a' b'
         | _, _ => false
         end) a b
  | _, _ => false
  end.

Definition key : Type := selection_t * string * value.

Definition key_eqb (k1 k2 : key) : bool :=
  bool_decide (k1.1.1 = k2.1.1) && String.eqb k1.1.2 k2.1.2
  && value_eqb k1.2 k2.2.

Definition MockManifest : Type := key → option Status.

Definition mock_set (k : key) (s : Status) (m : MockManifest) : MockManifest :=
  λ k', if key_eqb k k' then Some s else m k'.

(** Modelled from the spec: manifest.py ([Manifest], [MockManifest]) is not
    among the sources.  Following section 4.4 of the design document:
    [schedule] records a [scheduled] entry and never fails; entering a
    transaction fails with [ConcurrentDownloadError] when the entry is
    already [in_progress] and otherwise moves it to [in_progress]; a normal
    exit moves it to [success]; an exit on an exception moves it to
    [failure], stores the error, and does not suppress the exception. *)
#[global] Instance mock_manifest : Manifest MockManifest := {|
  schedule sel target user m := mock_set (sel, target, user) scheduled m;
  transact_enter sel target user m :=
    match m (sel, target, user) with
    | Some in_progress => Raise ConcurrentDownloadError
    | _ => Ok (mock_set (sel, target, user) in_progress m)
    end;
  transact_exit sel target user exc m :=
    match exc with
    | None => (mock_set (sel, target, user) success m, false)
    | Some e => (mock_set (sel, target, user) (failure e) m, false)
    end;
  status sel target user m := m (sel, target, user)
|}.

(** ** The Orchestrator: what [run] resolves before building the pipeline *)

Record Args : Type := mkArgs {
  arg_client : string;
  arg_force_download : bool;
  arg_dry_run : bool;
  arg_manifest_location : string
}.

Inductive ClientImpl : Type :=
| ConfiguredClient (name : string)   (* [CLIENTS[known_args.client](config)] *)
| FakeClient.

Inductive StoreImpl : Type :=
| GcsIO
| TempFileStore (directory : string).

Record Resolved : Type := mkResolved {
  r_config : Config;
  r_client : ClientImpl;
  r_store : StoreImpl;
  r_manifest : string
}.

(** [config['parameters'][k] = v] *)
Definition set_parameter (k : string) (v : value) (config : Config) : Config :=
  {| selection := selection config;
     parameters := dict_set k v (parameters config) |}.

(** [config] is the result of [process_config]; [login] that of
    [os.getlogin()]. *)
Definition resolve (args : Args) (login : string) (config : Config) : Resolved :=
  let config :=
    set_parameter "force_download" (VBool (arg_force_download args)) config in
  let config := set_parameter "user_id" (VStr login) config in
  let client := ConfiguredClient (arg_client args) in
  let store := GcsIO in
  let config :=
    set_parameter "force_download" (VBool (arg_force_download args)) config in
  let manifest := arg_manifest_location args in
  if arg_dry_run args then
    let client := FakeClient in
    let store := TempFileStore "dry_run" in
    let config := set_parameter "force_download" (VBool true) config in
    mkResolved config client store manifest
  else mkResolved config client store manifest.

(** The partitions [run] hands to the [FetchData] step: those the expander
    yields for the resolved configuration and store.  [stores] gives the
    behaviour of the store implementations, which live outside
    pipeline.py. *)
Definition run (stores : StoreImpl → Store) (args : Args) (login : string)
    (config : Config) : Resolved * list Config :=
  let r := resolve args login config in
  (r, yielded (prepare_partition (r_config r) (stores (r_store r))).1).

(** ** Vocabulary for the statements *)

(** A trace in which every [yield] comes right after the [schedule] call
    for the same partition (its selection, its target, its user), every
    [schedule] call is followed by such a [yield], and the partition was
    not filtered by the skip check. *)
Inductive registered_before_yield (store : Store) : list event → Prop :=
| rby_nil : registered_before_yield store []
| rby_cons out sel location evs :
    selection out = Some sel →
    prepare_target_name out = Ok location →
    skip_partition out store = Ok false →
    registered_before_yield store evs →
    registered_before_yield store
      (Scheduled sel location (user_of out) :: Yielded out :: evs).

Definition scheduled_calls (evs : list event) : list key :=
  omap (λ ev, match ev with
              | Scheduled sel location user => Some (sel, location, user)
              | _ => None
              end) evs.

(** Templates whose replacement fields are all [{}]: the literals [lits],
    each followed by a field, then [tail]. *)
Fixpoint brace_free (s : string) : bool :=
  match s with
  | EmptyString => true
  | String c s' =>
      negb (Ascii.eqb c "{") && negb (Ascii.eqb c "}") && brace_free s'
  end.

Fixpoint auto_template (lits : list string) (tail : string) : string :=
  match lits with
  | [] => tail
  | lit :: lits' => lit +:+ "{}" +:+ auto_template lits' tail
  end.

(** A text with every brace doubled, as [str.format] wants literal braces
    written. *)
Fixpoint escape_braces (s : string) : string :=
  match s with
  | EmptyString => EmptyString
  | String c s' =>
      if (Ascii.eqb c "{" || Ascii.eqb c "}")%bool
      then String c (String c (escape_braces s'))
      else String c (escape_braces s')
  end.

(** What such a template renders to, given enough values. *)
Fixpoint interleave_values (lits : list string) (args : list string)
    (tail : string) : string :=
  match lits, args with
  | lit :: lits', a :: args' => lit +:+ a +:+ interleave_values lits' args' tail
  | _, _ => tail
  end.

(** ** Configurations used in the examples below *)

Definition store_with (present : list string) : Store :=
  mkStore (λ target, bool_decide (target ∈ present)) (λ _ _, Ok ()).

Definition empty_store : Store := store_with [].

Definition year_month_selection : selection_t :=
  <["year" := ["2020"]]> (<["month" := ["01"; "02"]]> ∅).

(** The scenario of the design document: two partition keys, two months. *)
Definition year_month_config : Config :=
  mkConfig (Some year_month_selection)
           [("partition_keys", VList ["year"; "month"]);
            ("target_template", VStr "data-{}-{}.nc")].

(** The same configuration with [force_download] bound to [False]. *)
Definition year_month_config_unforced : Config :=
  set_parameter "force_download" (VBool false) year_month_config.

(** [month] is listed as a partition key but missing from the selection. *)
Definition missing_key_config : Config :=
  mkConfig (Some (<["year" := ["2020"]]> ∅))
           [("partition_keys", VList ["year"; "month"]);
            ("target_template", VStr "data-{}-{}.nc")].

(** Three fields in the template, two partition keys. *)
Definition short_values_config : Config :=
  mkConfig (Some year_month_selection)
           [("partition_keys", VList ["year"; "month"]);
            ("target_template", VStr "data-{}-{}-{}.nc")].

Definition group_a : dict := [("api_key", VStr "KKKKK1")].
Definition group_b : dict := [("api_key", VStr "KKKKK2")].
Definition group_c : dict := [("api_key", VStr "KKKKK3")].

(** Two years, two parameter groups, existing targets are skipped. *)
Definition two_groups_config : Config :=
  mkConfig (Some (<["year" := ["2020"; "2021"]]> ∅))
           [("partition_keys", VList ["year"]);
            ("target_template", VStr "data-{}.nc");
            ("force_download", VBool false);
            ("deepmind", VDict group_a);
            ("research", VDict group_b)].

(** Five days, three parameter groups. *)
Definition three_groups_config : Config :=
  mkConfig (Some (<["day" := ["01"; "02"; "03"; "04"; "05"]]> ∅))
           [("partition_keys", VList ["day"]);
            ("target_template", VStr "day-{}.nc");
            ("deepmind", VDict group_a);
            ("research", VDict group_b);
            ("cloud", VDict group_c)].

Definition dry_run_args : Args := mkArgs "cds" false true "mock://".

(** The year/month configuration without a [target_template]. *)
Definition untemplated_config : Config :=
  mkConfig (Some year_month_selection)
           [("partition_keys", VList ["year"; "month"])].


Definition failing_client : Client :=
  mkClient (λ _ _, Raise (ClientError "quota")).

Definition constant_client : Client :=
  mkClient (λ _ _, Ok [x61%byte; x62%byte]).

Definition empty_manifest : MockManifest := λ _, None.

(** ** The NetCDF loader (netcdf_loader.py) *)

Definition DATA_IMPORT_TIME_COLUMN : string := "data_import_time".
Definition BLOCK_SIZE : nat := Z.to_nat 16384.

(** The [np.dtype]s a variable can have, as far as the loader tells them
    apart; [Datetime64ns] is [np.dtype('<M8[ns]')]. *)
Inductive dtype : Type :=
| Float16 | Float32 | Float64
| Int8 | Int16 | Int32 | Int64
| UInt8 | UInt16 | UInt32 | UInt64
| BoolDtype
| Datetime64ns
| Datetime64s
| Timedelta64ns
| ObjectDtype.

Definition map_dtype_to_sql_type (var_type : dtype) : result string :=
  match var_type with
  | Float64 | Float32 => Ok "FLOAT64"
  | Datetime64ns => Ok "TIMESTAMP"
  | Int8 | Int16 | Int32 | Int64 => Ok "INT64"
  | _ => Raise ValueError
  end.

(** An [xr.Variable], as far as the schema needs it. *)
Record XrVariable : Type := mkXrVariable {
  var_size : nat;
  var_dtype : dtype
}.

(** An [xr.Dataset]: [ds.variables], in the order of its keys. *)
Record Dataset : Type := mkDataset {
  variables : list (string * XrVariable)
}.

Record SchemaField : Type := mkSchemaField {
  field_name : string;
  field_type : string;
  field_mode : string
}.

(** [ds.variables[column]] *)
Fixpoint var_lookup (column : string) (vars : list (string * XrVariable))
  : option XrVariable :=
  match vars with
  | [] => None
  | (name, v) :: vars' =>
      if String.eqb column name then Some v else var_lookup column vars'
  end.

(** The body of the loop of [dataset_to_table_schema], for one column. *)
Definition schema_field (ds : Dataset) (column : string) : result SchemaField :=
  match var_lookup column (variables ds) with
  | None => Raise (KeyError column)
  | Some v =>
      if negb (var_size v =? 0) then
        sql ← map_dtype_to_sql_type (var_dtype v);
        Ok (mkSchemaField column sql "REQUIRED")
      else Raise ValueError
  end.

Definition dataset_to_table_schema (ds : Dataset) : result (list SchemaField) :=
  fields ← mapM (schema_field ds) (variables ds).*1;
  Ok (fields ++ [mkSchemaField DATA_IMPORT_TIME_COLUMN "TIMESTAMP" "NULLABLE"]).

(** The Beam counters the loader increments. *)
Record Counters : Type := mkCounters {
  read_success : nat;      (* ('Success', 'ReadNetcdfData') *)
  read_failure : nat;      (* ('Failure', 'ReadNetcdfData') *)
  rows_success : nat       (* ('Success', 'ExtractRows') *)
}.

(** [while True: chunk = source_file.read(BLOCK_SIZE); ...] *)
Fixpoint read_blocks (fuel : nat) (data : list Byte.byte)
  : list (list Byte.byte) :=
  match fuel with
  | 0 => []
  | S fuel' =>
      let chunk := take BLOCK_SIZE data in
      match chunk with
      | [] => []
      | _ => chunk :: read_blocks fuel' (drop BLOCK_SIZE data)
      end
  end.

(** [gcs_open uri] is what reading the object at [uri] to its end gives, or
    the exception opening or reading raises; [xr_open_dataset] is xarray's
    reader applied to the local copy. *)
Definition open_dataset (gcs_open : string → result (list Byte.byte))
    (xr_open_dataset : list Byte.byte → result Dataset)
    (uri : string) (counters : Counters) : result Dataset * Counters :=
  match
    (source ← gcs_open uri;
     xr_open_dataset (concat (read_blocks (S (length source)) source)))
  with
  | Ok xr_dataset =>
      (Ok xr_dataset,
       mkCounters (S (read_success counters)) (read_failure counters)
         (rows_success counters))
  | Raise e =>
      (Raise e,
       mkCounters (read_success counters) (S (read_failure counters))
         (rows_success counters))
  end.

(** *** Row values and their JSON form *)

Record TzInfo : Type := mkTzInfo {
  tz_name : string;      (* what [tzname()] returns *)
  tz_offset : Z
}.

Definition UTC : TzInfo := mkTzInfo "UTC" 0.

(** A [pd.Timestamp]: its wall-clock reading and, when it is tz-aware, its
    zone. *)
Record Timestamp : Type := mkTimestamp {
  ts_wall : Z;
  ts_tz : option TzInfo
}.

(** The value of a floating-point number; converting between widths keeps
    it. *)
Inductive fval : Type :=
| FFinite (mantissa exponent : Z)
| FInf (negative : bool)
| FNaN.

(** What a cell of a row can hold. *)
Inductive cell : Type :=
| CNone
| CBool (b : bool)
| CInt (n : Z)
| CFloat (x : fval)            (* Python [float] *)
| CStr (s : string)
| CNpFloat32 (x : fval)
| CNpFloat64 (x : fval)
| CTimestamp (t : Timestamp)
| CNaT
| CNpFloat16 (x : fval)
| CNpLongDouble (x : fval).    (* where it is a type of its own *)

(** [value.tz_localize(tz='UTC')]: only a naive timestamp can be
    localized. *)
Definition tz_localize_utc (t : Timestamp) : result Timestamp :=
  match ts_tz t with
  | None => Ok (mkTimestamp (ts_wall t) (Some UTC))
  | Some _ => Raise TypeError
  end.

(** [isoformat] is pandas' rendering of a timestamp. *)
Definition to_json_serializable_type (isoformat : Timestamp → string)
    (value : cell) : result cell :=
  match value with
  | CTimestamp t =>
      let named :=
        match ts_tz t with
        | Some tz => negb (String.eqb (tz_name tz) "")
        | None => false
        end in
      if named then Ok (CStr (isoformat t))
      else t' ← tz_localize_utc t; Ok (CStr (isoformat t'))
  | CNpFloat32 x | CNpFloat64 x => Ok (CFloat x)
  | _ => Ok value
  end.

(** A row: a dict from column names to cells, in insertion order. *)
Abbreviation row := (list (string * cell)).

Fixpoint row_get (k : string) (r : row) : option cell :=
  match r with
  | [] => None
  | (k', v) :: r' => if String.eqb k k' then Some v else row_get k r'
  end.

Fixpoint row_set (k : string) (v : cell) (r : row) : row :=
  match r with
  | [] => [(k, v)]
  | (k', v') :: r' =>
      if String.eqb k k' then (k', v) :: r' else (k', v') :: row_set k v r'
  end.

Definition row_update (r p : row) : row :=
  foldl (λ acc kv, row_set kv.1 kv.2 acc) r p.

(** [dict(zip(names, values))] *)
Definition row_of_zip (names : list string) (values : list cell) : row :=
  row_update [] (zip names values).

(** An entry of [coords.to_index()]: with several dimensions the index is
    a multi-index and an entry is the tuple of one value per dimension;
    with one dimension an entry is the bare value. *)
Inductive index_entry : Type :=
| ITuple (values : list cell)
| IScalar (value : cell).

(** Iterating an entry, as [zip(index_columns, index_values)] does: a
    tuple gives its values and a string its characters; the other scalars
    are not iterable. *)
Definition iter_index_entry (entry : index_entry) : result (list cell) :=
  match entry with
  | ITuple values => Ok values
  | IScalar (CStr s) => Ok (CStr <$> chars s)
  | IScalar _ => Raise TypeError
  end.

(** What [extract_rows_as_dicts] reads of the opened dataset: [dims], the
    entries of [coords.to_index()], and, for an index dict, the data
    variables of [data_ds.loc[index_dict]] reduced by [.data.item()]. *)
Record DatasetView : Type := mkDatasetView {
  dims : list string;
  index : list index_entry;
  data_vars_at : row → result row
}.

(** [for key, value in row.items(): row[key] = to_json_serializable_type(value)] *)
Definition serialize_row (isoformat : Timestamp → string) (r : row)
  : result row :=
  mapM (λ kv, v ← to_json_serializable_type isoformat kv.2; Ok (kv.1, v)) r.

(** The body of the loop of [extract_rows_as_dicts]. *)
Definition extract_row (isoformat : Timestamp → string) (data_ds : DatasetView)
    (import_time : cell) (index_values : index_entry) : result row :=
  let index_columns := dims data_ds in
  values ← iter_index_entry index_values;
  let index_dict := row_of_zip index_columns values in
  vars_dict ← data_vars_at data_ds index_dict;
  let row := row_update index_dict vars_dict in
  let row := row_set DATA_IMPORT_TIME_COLUMN import_time row in
  serialize_row isoformat row.

Fixpoint extract_rows_loop (isoformat : Timestamp → string)
    (data_ds : DatasetView) (import_time : cell)
    (entries : list index_entry) (counters : Counters)
  : list row * option exn * Counters :=
  match entries with
  | [] => ([], None, counters)
  | index_values :: entries' =>
      match extract_row isoformat data_ds import_time index_values with
      | Raise e => ([], Some e, counters)
      | Ok row =>
          let counters :=
            mkCounters (read_success counters) (read_failure counters)
              (S (rows_success counters)) in
          let '(rows, err, counters') :=
            extract_rows_loop isoformat data_ds import_time entries'
              counters in
          (row :: rows, err, counters')
      end
  end.

(** The generator, as the rows it yields, the exception that ends it if
    any, and the counters afterwards.  [view] is what xarray makes
    readable of a dataset. *)
Definition extract_rows_as_dicts (isoformat : Timestamp → string)
    (gcs_open : string → result (list Byte.byte))
    (xr_open_dataset : list Byte.byte → result Dataset)
    (view : Dataset → DatasetView)
    (uri : string) (import_time : cell) (counters : Counters)
  : list row * option exn * Counters :=
  match open_dataset gcs_open xr_open_dataset uri counters with
  | (Raise e, counters) => ([], Some e, counters)
  | (Ok ds, counters) =>
      let data_ds := view ds in
      extract_rows_loop isoformat data_ds import_time (index data_ds) counters
  end.

(** The cell is neither a [pd.Timestamp] nor a [np.float32] or
    [np.float64], the types [to_json_serializable_type] converts. *)
Definition converted (c : cell) : Prop :=
  match c with
  | CTimestamp _ | CNpFloat32 _ | CNpFloat64 _ => False
  | _ => True
  end.

(** A dataset view with two index columns and one entry, used in the
    examples. *)
Definition example_view : DatasetView :=
  mkDatasetView ["latitude"; "longitude"]
    [ITuple [CNpFloat32 (FFinite 88 0); CNpFloat32 (FFinite 2 0)]]
    (λ _, Ok [("z", CNpFloat64 (FFinite 1 0));
              ("data_import_time", CInt 7)]).

(** A dataset view with one dimension: the index entries are bare
    values. *)
Definition one_dimensional_view : DatasetView :=
  mkDatasetView ["latitude"]
    [IScalar (CNpFloat32 (FFinite 88 0)); IScalar (CNpFloat32 (FFinite 89 0))]
    (λ _, Ok [("z", CNpFloat64 (FFinite 1 0))]).

Definition example_isoformat (t : Timestamp) : string :=
  match ts_tz t with
  | Some tz => "1970-01-01T00:00:00+00:00"
  | None => "1970-01-01T00:00:00"
  end.

(** * Properties *)

(** ** Results *)

Lemma mapM_Ok_length {A B} (f : A → result B) xs ys :
  mapM f xs = Ok ys → length ys = length xs.
Proof.
  revert ys. induction xs as [|x xs IH]; intros ys; simpl.
  - by intros [= <-].
  - destruct (f x) as [y|]; [|done]. simpl.
    destruct (mapM f xs) as [ys'|]; [|done]. simpl.
    intros [= <-]. simpl. f_equal. by apply IH.
Qed.

Lemma mapM_Ok_Forall2 {A B} (f : A → result B) xs ys :
  mapM f xs = Ok ys ↔ Forall2 (λ x y, f x = Ok y) xs ys.
Proof.
  revert ys. induction xs as [|x xs IH]; intros ys; simpl.
  - split; [intros [= <-]; constructor | by inversion 1].
  - split.
    + destruct (f x) as [y|] eqn:Hx; [|done]. simpl.
      destruct (mapM f xs) as [ys'|] eqn:Hxs; [|done]. simpl.
      intros [= <-]. constructor; [done|]. by apply IH.
    + inversion 1 as [|? y ? ys' Hx Hxs]; subst. rewrite Hx. simpl.
      apply IH in Hxs. by rewrite Hxs.
Qed.

(** ** Dictionaries *)

Lemma dict_get_set_eq k v d : dict_get k (dict_set k v d) = Some v.
Proof.
  induction d as [|[k' v'] d IH]; simpl.
  - by rewrite String.eqb_refl.
  - destruct (String.eqb k k') eqn:E; simpl; rewrite E; done.
Qed.

Lemma dict_get_set_ne k k' v d :
  k ≠ k' → dict_get k (dict_set k' v d) = dict_get k d.
Proof.
  intros Hne. induction d as [|[k0 v0] d IH]; simpl.
  - destruct (String.eqb k k') eqn:E; [|done].
    apply String.eqb_eq in E. congruence.
  - destruct (String.eqb k' k0) eqn:E; simpl; [|by rewrite IH].
    apply String.eqb_eq in E as <-.
    destruct (String.eqb k k') eqn:E'; [|done].
    apply String.eqb_eq in E'. congruence.
Qed.

Lemma dict_get_None_update k d p :
  dict_get k p = None → dict_get k (dict_update d p) = dict_get k d.
Proof.
  unfold dict_update. revert d.
  induction p as [|[k' v'] p IH]; intros d; simpl; [done|].
  destruct (String.eqb k k') eqn:E; [done|]. intros Hp.
  rewrite IH by done. apply dict_get_set_ne.
  intros ->. by rewrite String.eqb_refl in E.
Qed.

(** ** [itertools.product] *)

Lemma product_foldl {A} (acc : list (list A)) pools :
  foldl (λ result pool, x ← result; y ← pool; [x ++ [y]]) acc pools
  = a ← acc; (λ t, a ++ t) <$> product_rec pools.
Proof.
  revert acc. induction pools as [|pool pools IH]; intros acc.
  - cbn [foldl product_rec].
    induction acc as [|a acc IHa]; [done|].
    rewrite bind_cons, <- IHa. cbn. by rewrite app_nil_r.
  - cbn [foldl product_rec]. rewrite IH. clear IH.
    induction acc as [|a acc IHa]; [done|].
    rewrite !bind_cons, bind_app, IHa. f_equal. clear IHa.
    induction pool as [|y pool IHp]; [done|].
    rewrite !bind_cons, fmap_app, <- IHp, bind_app. f_equal.
    rewrite bind_singleton, <- list_fmap_compose. apply list_fmap_ext.
    intros ? t _. simpl. by rewrite <- app_assoc.
Qed.

Lemma product_product_rec {A} (pools : list (list A)) :
  product pools = product_rec pools.
Proof.
  unfold product. rewrite product_foldl. simpl.
  rewrite app_nil_r. apply list_fmap_id.
Qed.

Lemma product_cons {A} (pool : list A) pools :
  product (pool :: pools) = x ← pool; (λ t, x :: t) <$> product pools.
Proof. by rewrite !product_product_rec. Qed.

Lemma length_product {A} (pools : list (list A)) :
  length (product pools) = foldr Nat.mul 1 (length <$> pools).
Proof.
  rewrite product_product_rec.
  induction pools as [|pool pools IH]; [done|].
  cbn [product_rec fmap list_fmap foldr]. rewrite <- IH. clear IH.
  induction pool as [|x pool IHp]; [done|].
  by rewrite bind_cons, length_app, length_fmap, IHp.
Qed.

Lemma product_length_elem {A} (pools : list (list A)) t :
  t ∈ product pools → length t = length pools.
Proof.
  rewrite product_product_rec. revert t.
  induction pools as [|pool pools IH]; intros t; simpl.
  - by intros ->%list_elem_of_singleton.
  - intros (x & Ht & _)%list_elem_of_bind.
    apply list_elem_of_fmap in Ht as (t' & -> & Ht'). simpl. f_equal. auto.
Qed.

(** ** The parameter-group iterator *)

Lemma params_take_length_repeat n d : length (params_take n (Repeat d)) = n.
Proof. induction n; simpl; auto. Qed.

Lemma params_take_repeat_lookup n d i :
  i < n → params_take n (Repeat d) !! i = Some d.
Proof.
  revert i. induction n as [|n IH]; intros i Hi; [lia|].
  destruct i; simpl; [done|]. apply IH. lia.
Qed.

Lemma params_take_cycle_gen n pre pending saved i :
  saved = pre ++ pending → saved ≠ [] → i < n →
  params_take n (Cycle pending saved) !! i
  = saved !! ((length pre + i) mod length saved).
Proof.
  revert pre pending i. induction n as [|n IH]; intros pre pending i Hs Hne Hi; [lia|].
  assert (0 < length saved) as Hlen by (destruct saved; [done | simpl; lia]).
  destruct pending as [|x pending].
  - rewrite app_nil_r in Hs. subst pre.
    destruct saved as [|x saved']; [done|]. cbn [params_take params_next].
    destruct i as [|i].
    + rewrite Nat.add_0_r, Nat.Div0.mod_same. done.
    + rewrite lookup_cons. rewrite (IH [x] saved' i) by (done || lia).
      f_equal. simpl length.
      replace (S (length saved') + S i) with (1 + i + 1 * S (length saved')) by lia.
      by rewrite Nat.Div0.mod_add.
  - cbn [params_take params_next]. destruct i as [|i].
    + rewrite Nat.add_0_r, Nat.mod_small.
      2:{ subst saved. rewrite length_app. simpl. lia. }
      subst saved. by rewrite list_lookup_middle.
    + rewrite lookup_cons. rewrite (IH (pre ++ [x]) pending i).
      * f_equal. rewrite length_app. simpl. f_equal. lia.
      * by rewrite <- app_assoc.
      * done.
      * lia.
Qed.

Lemma params_take_cycle_lookup n extra i :
  extra ≠ [] → i < n →
  params_take n (cycle extra) !! i = extra !! (i mod length extra).
Proof.
  intros. unfold cycle.
  by rewrite (params_take_cycle_gen n [] extra extra i).
Qed.

Lemma params_take_length_cycle n pending saved :
  saved ≠ [] → length (params_take n (Cycle pending saved)) = n.
Proof.
  intros Hne. revert pending. induction n as [|n IH]; intros pending; [done|].
  destruct pending as [|x pending]; cbn [params_take params_next].
  - destruct saved as [|x saved']; [done|]. simpl. by rewrite IH.
  - simpl. by rewrite IH.
Qed.

Lemma params_take_length n extra :
  length (params_take n (make_params_loop extra)) = n.
Proof.
  destruct extra as [|g extra]; simpl make_params_loop.
  - apply params_take_length_repeat.
  - by apply params_take_length_cycle.
Qed.

(** ** Narrowing the selection *)

Lemma narrow_from_Ok keys idx option (copy : gmap string (list string)) :
  idx + length keys ≤ length option →
  narrow_from idx keys option copy
  = Ok (foldl (λ m kv, <[kv.1 := [kv.2]]> m) copy (zip keys (drop idx option))).
Proof.
  revert idx copy. induction keys as [|key keys IH]; intros idx copy Hlen.
  - done.
  - simpl in Hlen. cbn [narrow_from].
    destruct (option !! idx) as [v|] eqn:Hv.
    2:{ apply lookup_ge_None in Hv. lia. }
    rewrite IH by lia.
    rewrite (drop_S _ _ _ Hv). done.
Qed.

Lemma narrow_Ok keys option (sel : gmap string (list string)) :
  length option = length keys →
  narrow keys option sel = Ok (narrowed keys option sel).
Proof.
  intros Hlen. unfold narrow, narrowed.
  rewrite narrow_from_Ok by (simpl; lia). by rewrite drop_0.
Qed.

Lemma foldl_insert_absorb (l : list (string * string)) k x
    (m : gmap string (list string)) :
  k ∈ l.*1 →
  foldl (λ m kv, <[kv.1 := [kv.2]]> m) (<[k := x]> m) l
  = foldl (λ m kv, <[kv.1 := [kv.2]]> m) m l.
Proof.
  revert m. induction l as [|[k0 v0] l IH]; intros m Hk.
  - by apply elem_of_nil in Hk.
  - cbn [foldl fst snd]. destruct (decide (k0 = k)) as [->|Hne].
    + by rewrite insert_insert_eq.
    + rewrite insert_insert_ne by done. apply IH.
      rewrite fmap_cons in Hk. apply elem_of_cons in Hk as [Hk|Hk]; [|done].
      simpl in Hk. congruence.
Qed.

Lemma narrowed_absorb keys option option' (sel : gmap string (list string)) :
  length option = length keys → length option' = length keys →
  narrowed keys option (narrowed keys option' sel) = narrowed keys option sel.
Proof.
  intros H1 H2. unfold narrowed.
  assert ((zip keys option').*1 ⊆ (zip keys option).*1) as Hsub.
  { rewrite !fst_zip by lia. done. }
  revert Hsub. generalize (zip keys option) as l. generalize (zip keys option') as l'.
  intros l'. revert sel. induction l' as [|[k x] l' IH]; intros sel l Hsub; [done|].
  cbn [foldl fst snd]. rewrite IH.
  - apply foldl_insert_absorb. apply Hsub. rewrite fmap_cons. left.
  - intros y Hy. apply Hsub. rewrite fmap_cons. by right.
Qed.

(** ** The loop builds the candidates and treats them as [emit] does *)

Lemma partition_loop_emit config store keys fan_out it
    (sel0 sel : gmap string (list string)) :
  Forall (λ option, length option = length keys) fan_out →
  (∀ option, length option = length keys →
     narrowed keys option sel = narrowed keys option sel0) →
  partition_loop config store keys fan_out it sel
  = emit store
      (zip_with (λ option params,
                   make_out config (narrowed keys option sel0) params)
         fan_out (params_take (length fan_out) it)).
Proof.
  intros Hlen. revert it sel.
  induction Hlen as [|option fan_out Ho Hlen IH]; intros it sel Hsel; [done|].
  cbn [partition_loop length params_take].
  destruct (params_next it) as [[params it']|]; [|done].
  cbn [zip_with emit].
  rewrite narrow_Ok, Hsel by done.
  destruct (skip_partition _ store) as [[|]|e]; [| |done].
  - by apply IH.
  - destruct (prepare_target_name _) as [location|e]; [|done].
    rewrite IH; [done|].
    intros o Hlo. by apply narrowed_absorb.
Qed.

Lemma prepare_partition_setup config store keys pools :
  partition_keys_of config = Ok keys →
  mapM (λ key, sel_getitem key (selection_of config)) keys = Ok pools →
  candidates config = candidates_of config keys pools ∧
  prepare_partition config store = emit store (candidates config).
Proof.
  intros Hk Hp. unfold prepare_partition, candidates. rewrite Hk, Hp.
  split; [done|]. unfold candidates_of.
  apply partition_loop_emit; [|done].
  apply Forall_forall. intros t Ht.
  rewrite (product_length_elem _ _ Ht). by apply mapM_Ok_length in Hp.
Qed.

(** ** Traces of the expander *)

Lemma yielded_cons_scheduled sel location user evs :
  yielded (Scheduled sel location user :: evs) = yielded evs.
Proof. done. Qed.

Lemma yielded_cons_yielded out evs :
  yielded (Yielded out :: evs) = out :: yielded evs.
Proof. done. Qed.

Lemma emit_registered store outs :
  Forall (λ out, is_Some (selection out)) outs →
  registered_before_yield store (emit store outs).1.
Proof.
  induction 1 as [|out outs [sel Hsel] _ IH]; cbn [emit]; [constructor|].
  destruct (skip_partition out store) as [[|]|e] eqn:Hskip;
    [done | | constructor].
  destruct (prepare_target_name out) as [location|e] eqn:Hname;
    [|constructor].
  cbn [fst]. unfold selection_of. rewrite Hsel. by constructor.
Qed.

Lemma emit_all store outs :
  Forall (λ out, skip_partition out store = Ok false
                 ∧ is_ok (prepare_target_name out)) outs →
  (emit store outs).2 = None ∧ yielded (emit store outs).1 = outs.
Proof.
  induction 1 as [|out outs [Hskip [location Hname]] _ [IH1 IH2]];
    cbn [emit]; [done|].
  rewrite Hskip, Hname. cbn [fst snd].
  rewrite yielded_cons_scheduled, yielded_cons_yielded, IH2. done.
Qed.

Lemma emit_sublist store outs :
  yielded (emit store outs).1 `sublist_of` outs.
Proof.
  induction outs as [|out outs IH]; cbn [emit]; [done|].
  destruct (skip_partition out store) as [[|]|e].
  - by apply sublist_cons.
  - destruct (prepare_target_name out) as [location|e]; cbn [fst].
    + rewrite yielded_cons_scheduled, yielded_cons_yielded.
      by apply sublist_skip.
    + apply sublist_nil_l.
  - apply sublist_nil_l.
Qed.

Lemma emit_yielded_lookup store outs j out :
  yielded (emit store outs).1 !! j = Some out →
  ∃ i, outs !! i = Some out
       ∧ skip_partition out store = Ok false
       ∧ i = j + length (filter (λ o, is_skipped store o) (take i outs)).
Proof.
  revert j. induction outs as [|o outs IH]; intros j; cbn [emit]; [done|].
  destruct (skip_partition o store) as [[|]|e] eqn:Hskip; [| |done].
  - intros (i & Hi & Hs & Hpos)%IH. exists (S i). split; [done|].
    split; [done|]. cbn [take]. rewrite filter_cons_True.
    + simpl. lia.
    + unfold is_skipped. by rewrite Hskip.
  - destruct (prepare_target_name o) as [location|e]; [|done]. cbn [fst].
    rewrite yielded_cons_scheduled, yielded_cons_yielded.
    destruct j as [|j].
    + intros [= <-]. exists 0. split_and!; done.
    + intros Hj. change (yielded (emit store outs).1 !! j = Some out) in Hj.
      apply IH in Hj as (i & Hi & Hs & Hpos).
      exists (S i). split; [done|]. split; [done|].
      cbn [take]. rewrite filter_cons_False.
      * lia.
      * unfold is_skipped. rewrite Hskip. by intros [].
Qed.

Lemma candidates_of_lookup config keys pools i out :
  candidates_of config keys pools !! i = Some out ↔
  ∃ option params,
    product pools !! i = Some option
    ∧ params_take (length (product pools))
        (make_params_loop (extra_params (parameters config))) !! i = Some params
    ∧ out = make_out config (narrowed keys option (selection_of config)) params.
Proof.
  unfold candidates_of. cbn zeta. rewrite lookup_zip_with_Some.
  split.
  - intros (o & p & -> & ? & ?). by exists o, p.
  - intros (o & p & ? & ? & ->). by exists o, p.
Qed.

Lemma length_candidates_of config keys pools :
  length (candidates_of config keys pools) = length (product pools).
Proof.
  unfold candidates_of. cbn zeta.
  rewrite length_zip_with, params_take_length. lia.
Qed.

Lemma candidates_selection config :
  Forall (λ out, is_Some (selection out)) (candidates config).
Proof.
  unfold candidates. destruct (partition_keys_of config) as [keys|]; [|done].
  destruct (mapM _ keys) as [pools|]; [|done].
  apply Forall_lookup. intros i out (o & p & _ & _ & ->)%candidates_of_lookup.
  by eexists.
Qed.

(** The overlay the [i]-th candidate receives. *)
Lemma params_take_overlay n extra i params :
  params_take n (make_params_loop extra) !! i = Some params →
  match extra with
  | [] => params = []
  | _ => extra !! (i mod length extra) = Some params
  end.
Proof.
  intros Hi.
  assert (i < n) as Hlt.
  { apply lookup_lt_Some in Hi. by rewrite params_take_length in Hi. }
  destruct extra as [|g extra]; simpl make_params_loop in Hi.
  - rewrite params_take_repeat_lookup in Hi by done. congruence.
  - rewrite params_take_cycle_lookup in Hi by done. done.
Qed.

(** ** [str.format] on templates of [{}] fields *)

Lemma string_app_nil_l (s : string) : "" +:+ s = s.
Proof. done. Qed.

Lemma string_app_cons c (s t : string) : String c s +:+ t = String c (s +:+ t).
Proof. done. Qed.

Lemma string_app_nil_r (s : string) : s +:+ "" = s.
Proof.
  induction s as [|c s IH]; [done|]. by rewrite string_app_cons, IH.
Qed.

Lemma format_go_plain_char c rest st args :
  Ascii.eqb c "{" = false → Ascii.eqb c "}" = false →
  format_go (String c rest) None st args
  = out ← format_go rest None st args; Ok (String c out).
Proof.
  intros H1 H2.
  destruct c as [[] [] [] [] [] [] [] []]; try done; destruct rest; done.
Qed.

Lemma format_go_literal lit rest st args :
  brace_free lit →
  format_go (lit +:+ rest) None st args
  = out ← format_go rest None st args; Ok (lit +:+ out).
Proof.
  induction lit as [|c lit IH]; intros Hbf.
  - rewrite string_app_nil_l. by destruct (format_go rest None st args).
  - cbn [brace_free] in Hbf.
    apply andb_prop_elim in Hbf as [Hc Hbf].
    apply andb_prop_elim in Hc as [H1 H2].
    apply negb_prop_elim, Is_true_false_1 in H1.
    apply negb_prop_elim, Is_true_false_1 in H2.
    rewrite string_app_cons, format_go_plain_char, IH by done.
    by destruct (format_go rest None st args).
Qed.

Lemma format_go_auto_field rest st args :
  format_go ("{}" +:+ rest) None st args
  = '(a, st') ← render_field "" st args;
    out ← format_go rest None st' args;
    Ok (a +:+ out).
Proof. done. Qed.

Lemma format_go_auto_template lits tail args n st :
  st = NumAuto n ∨ (st = NumInit ∧ n = 0) →
  Forall (λ lit, brace_free lit) lits → brace_free tail →
  format_go (auto_template lits tail) None st args
  = if decide (length lits ≤ length (drop n args))
    then Ok (interleave_values lits (drop n args) tail)
    else Raise IndexError.
Proof.
  intros Hst Hlits Htail. revert n st Hst.
  induction Hlits as [|lit lits Hlit Hlits IH]; intros n st Hst.
  - cbn [auto_template length interleave_values].
    rewrite decide_True by lia.
    rewrite <- (string_app_nil_r tail) at 1.
    rewrite format_go_literal by done.
    cbn [format_go mbind result_bind]. by rewrite string_app_nil_r.
  - cbn [auto_template]. rewrite format_go_literal by done.
    rewrite format_go_auto_field.
    assert (render_field "" st args
            = match args !! n with
              | Some a => Ok (a, NumAuto (S n))
              | None => Raise IndexError
              end) as ->.
    { unfold render_field.
      assert (resolve_field "" st = Ok (N.of_nat n, NumAuto (S n))) as ->
        by (destruct Hst as [->|[-> ->]]; done).
      cbn [mbind result_bind]. rewrite Nat2N.id.
      destruct (N.leb_spec (N.of_nat (length args)) (N.of_nat n)) as [Hle|_];
        [|done].
      rewrite (proj2 (lookup_ge_None args n)); [done|lia]. }
    destruct (args !! n) as [a|] eqn:Ha.
    + cbn [mbind result_bind]. rewrite (IH (S n)) by auto.
      rewrite (drop_S _ _ _ Ha). cbn [length interleave_values].
      destruct (decide (length lits ≤ length (drop (S n) args)));
        [rewrite decide_True by lia | rewrite decide_False by lia]; done.
    + cbn [mbind result_bind]. apply lookup_ge_None in Ha.
      rewrite decide_False; [done|]. rewrite length_drop. simpl. lia.
Qed.

Lemma format_auto_template lits tail args :
  Forall (λ lit, brace_free lit) lits → brace_free tail →
  format (auto_template lits tail) args
  = if decide (length lits ≤ length args)
    then Ok (interleave_values lits args tail)
    else Raise IndexError.
Proof.
  intros. unfold format.
  rewrite (format_go_auto_template lits tail args 0) by auto.
  by rewrite drop_0.
Qed.

(** ** The Skip Oracle *)

Lemma skip_partition_unset config store :
  dict_get "force_download" (parameters config) = None →
  skip_partition config store = Ok false.
Proof. intros H. unfold skip_partition, dict_mem. by rewrite H. Qed.

Lemma skip_partition_forced config store v :
  dict_get "force_download" (parameters config) = Some v →
  truthy v = true →
  skip_partition config store = Ok false.
Proof.
  intros H Hv. unfold skip_partition, dict_mem, getitem. rewrite H.
  cbn [negb mbind result_bind]. by rewrite Hv.
Qed.

Lemma skip_partition_unforced config store v :
  dict_get "force_download" (parameters config) = Some v →
  truthy v = false →
  skip_partition config store
  = target ← prepare_target_name config; Ok (store_exists store target).
Proof.
  intros H Hv. unfold skip_partition, dict_mem, getitem. rewrite H.
  cbn [negb mbind result_bind]. rewrite Hv.
  destruct (prepare_target_name config) as [target|]; [|done].
  cbn [mbind result_bind]. by destruct (store_exists store target).
Qed.

(** C1, as amended: the Skip Oracle answers skip=true exactly when
    [force_download] is bound in [parameters] to a false value and the
    Store reports an object at the computed Target.  When [force_download]
    is unset it answers false without consulting the Store, and when it is
    bound to a true value it answers false whatever the Store holds. *)
Theorem skip_partition_true_iff config store :
  (skip_partition config store = Ok true ↔
   ∃ v target,
     dict_get "force_download" (parameters config) = Some v
     ∧ truthy v = false
     ∧ prepare_target_name config = Ok target
     ∧ store_exists store target = true)
  ∧ (dict_get "force_download" (parameters config) = None →
     skip_partition config store = Ok false)
  ∧ (∀ v, dict_get "force_download" (parameters config) = Some v →
          truthy v = true → skip_partition config store = Ok false).
Proof.
  split_and!; [|apply skip_partition_unset|apply skip_partition_forced].
  destruct (dict_get "force_download" (parameters config)) as [v|] eqn:Hfd.
  - destruct (truthy v) eqn:Hv.
    + rewrite (skip_partition_forced _ _ v) by done.
      split; [done|]. intros (v' & ? & [= <-] & ? & _). congruence.
    + rewrite (skip_partition_unforced _ _ v) by done.
      destruct (prepare_target_name config) as [target|e];
        cbn [mbind result_bind].
      * split.
        -- intros [= Ht]. by exists v, target.
        -- intros (? & ? & _ & _ & [= <-] & ->). done.
      * split; [done|]. intros (? & ? & _ & _ & ? & _). done.
  - rewrite skip_partition_unset by done.
    split; [done|]. intros (? & ? & ? & _). done.
Qed.

Lemma skip_partition_true_iff_witness :
  skip_partition year_month_config_unforced (store_with ["data-2020-01.nc"])
  = Ok true
  ∧ skip_partition year_month_config (store_with ["data-2020-01.nc"])
    = Ok false.
Proof.
  destruct (skip_partition_true_iff year_month_config_unforced
              (store_with ["data-2020-01.nc"])) as ([_ Hskip] & _ & _).
  destruct (skip_partition_true_iff year_month_config
              (store_with ["data-2020-01.nc"])) as (_ & Hunset & _).
  split.
  - apply Hskip. exists (VBool false), "data-2020-01.nc".
    split_and!; by vm_compute.
  - by apply Hunset.
Defined.

(** C1, as stated, fails: with [force_download] unset and the Target
    present in the Store the Skip Oracle answers false. *)
Lemma skip_partition_unset_counterexample :
  let config := year_month_config in
  let store := store_with ["data-2020-01.nc"] in
  ¬ (skip_partition config store = Ok true ↔
     (dict_get "force_download" (parameters config) = None
      ∨ dict_get "force_download" (parameters config) = Some (VBool false))
     ∧ ∃ target, prepare_target_name config = Ok target
                 ∧ store_exists store target = true).
Proof.
  intros config store [_ H].
  assert (skip_partition config store = Ok true) as Hskip; [|done].
  apply H. split; [by left|].
  exists "data-2020-01.nc". split; [by vm_compute|by vm_compute].
Qed.

(** ** The Target Namer *)

Lemma mapM_raises {A B} (f : A → result B) xs x e :
  x ∈ xs → f x = Raise e →
  ∃ x' e', x' ∈ xs ∧ f x' = Raise e' ∧ mapM f xs = Raise e'.
Proof.
  intros Hx Hf. induction xs as [|y xs IH]; [by apply elem_of_nil in Hx|].
  cbn [mapM]. destruct (f y) as [b|e'] eqn:Hy.
  - apply elem_of_cons in Hx as [->|Hx]; [congruence|].
    destruct (IH Hx) as (x' & e' & Hx' & Hfx' & ->).
    exists x', e'. split_and!; [by right|done..].
  - exists y, e'. split_and!; [by left|done..].
Qed.

Lemma mapM_raises_first {A B} (f : A → result B) pre x post e :
  Forall (λ y, is_ok (f y)) pre → f x = Raise e →
  mapM f (pre ++ x :: post) = Raise e.
Proof.
  intros Hpre Hx. induction Hpre as [|y pre [b Hy] _ IH]; cbn [app mapM].
  - by rewrite Hx.
  - by rewrite Hy, IH.
Qed.

Lemma key_value_absent config key :
  selection config ≫= (.!! key) = None →
  ∃ k, key_value config key = Raise (KeyError k).
Proof.
  unfold key_value, getitem_selection, sel_getitem.
  destruct (selection config) as [sel|]; cbn [mbind option_bind result_bind].
  - intros ->. by eexists.
  - by eexists.
Qed.

Lemma key_value_raises config key e :
  key_value config key = Raise e → e = IndexError ∨ ∃ k, e = KeyError k.
Proof.
  unfold key_value, getitem_selection, sel_getitem, first_value.
  destruct (selection config) as [sel|]; cbn [mbind result_bind];
    [|intros [= <-]; eauto].
  destruct (sel !! key) as [[|v vs]|]; cbn [mbind result_bind];
    intros [= <-]; eauto.
Qed.

(** C7, as amended: the Target Namer fails whenever a key listed in
    [partition_keys] is absent from the [selection] section, and the
    exception is a [KeyError] or an [IndexError], the latter only when an
    earlier key is bound to an empty sequence; when the keys before the
    absent one are bound to non-empty sequences it is the [KeyError] of the
    absent key.  When every key has a first value and the template, made of
    [{}] fields and brace-free text, has more fields than there are
    partition-key values, it fails with an [IndexError]. *)
Theorem prepare_target_name_fails config keys :
  partition_keys_of config = Ok keys →
  (∀ key, key ∈ keys → selection config ≫= (.!! key) = None →
     ∃ e, prepare_target_name config = Raise e
          ∧ (e = IndexError ∨ ∃ k, e = KeyError k))
  ∧ (∀ sel pre key post,
       selection config = Some sel → keys = pre ++ key :: post →
       Forall (λ k, ∃ v vs, sel !! k = Some (v :: vs)) pre →
       sel !! key = None →
       prepare_target_name config = Raise (KeyError key))
  ∧ (∀ values lits tail,
       mapM (key_value config) keys = Ok values →
       dict_get "target_template" (parameters config)
       = Some (VStr (auto_template lits tail)) →
       Forall (λ lit, brace_free lit) lits → brace_free tail →
       length values < length lits →
       prepare_target_name config = Raise IndexError).
Proof.
  intros Hkeys. unfold prepare_target_name. rewrite Hkeys.
  cbn [mbind result_bind]. split_and!.
  - intros key Hin Habs.
    destruct (key_value_absent config key Habs) as [k Hk].
    destruct (mapM_raises _ keys key _ Hin Hk) as (k' & e & _ & He & ->).
    exists e. split; [done|]. by eapply key_value_raises.
  - intros sel pre key post Hsel -> Hpre Hkey.
    rewrite (mapM_raises_first _ pre key post (KeyError key)); [done| |].
    + eapply Forall_impl; [exact Hpre|].
      intros k (v & vs & Hk). exists v.
      unfold key_value, getitem_selection, sel_getitem. rewrite Hsel.
      cbn [mbind result_bind]. by rewrite Hk.
    + unfold key_value, getitem_selection, sel_getitem. rewrite Hsel.
      cbn [mbind result_bind]. by rewrite Hkey.
  - intros values lits tail -> Htpl Hlits Htail Hlen.
    unfold getitem. rewrite Htpl. cbn [mbind result_bind value_format].
    rewrite format_auto_template by done.
    by rewrite decide_False by lia.
Qed.

Lemma prepare_target_name_fails_witness :
  (∃ e, prepare_target_name missing_key_config = Raise e
        ∧ (e = IndexError ∨ ∃ k, e = KeyError k))
  ∧ prepare_target_name missing_key_config = Raise (KeyError "month")
  ∧ prepare_target_name short_values_config = Raise IndexError.
Proof.
  destruct (prepare_target_name_fails missing_key_config ["year"; "month"]
              eq_refl) as (Habsent & Hfirst & _).
  destruct (prepare_target_name_fails short_values_config ["year"; "month"]
              eq_refl) as (_ & _ & Hshort).
  split_and!.
  - apply (Habsent "month"); [|by vm_compute].
    apply list_elem_of_lookup. by exists 1.
  - apply (Hfirst (<["year" := ["2020"]]> ∅) ["year"] "month" []);
      [done | done | | by vm_compute].
    repeat constructor. by exists "2020", [].
  - apply (Hshort ["2020"; "01"] ["data-"; "-"; "-"] ".nc");
      [by vm_compute | done | by repeat constructor | done | simpl; lia].
Defined.

(** C7, as stated, fails: the missing key surfaces as a [KeyError] and the
    over-long template as an [IndexError], neither as a
    [ConfigurationError]. *)
Lemma prepare_target_name_error_counterexample :
  prepare_target_name missing_key_config = Raise (KeyError "month")
  ∧ prepare_target_name short_values_config = Raise IndexError
  ∧ ¬ (prepare_target_name missing_key_config = Raise ConfigurationError
       ∨ prepare_target_name short_values_config = Raise ConfigurationError).
Proof.
  split_and!; [by vm_compute..|].
  intros [H|H]; vm_compute in H; discriminate H.
Qed.

(** ** The Manifest transaction *)

Lemma value_eqb_refl : ∀ v, value_eqb v v = true.
Proof.
  fix IH 1. intros [| b | n | s | l | d]; simpl.
  - done.
  - by destruct b.
  - apply Z.eqb_refl.
  - apply String.eqb_refl.
  - by apply bool_decide_eq_true.
  - induction d as [|[k x] d IHd]; [done|].
    by rewrite String.eqb_refl, IH, IHd.
Qed.

Lemma key_eqb_refl k : key_eqb k k = true.
Proof.
  unfold key_eqb.
  by rewrite bool_decide_eq_true_2, String.eqb_refl, value_eqb_refl.
Qed.

Lemma mock_set_lookup k s m : mock_set k s m k = Some s.
Proof. unfold mock_set. by rewrite key_eqb_refl. Qed.

Lemma chunk_size_pos : 0 < chunk_size.
Proof. unfold chunk_size. lia. Qed.

(** The chunk loop hands over every byte of the file, in order. *)
Lemma read_chunks_concat fuel data :
  length data < fuel → concat (read_chunks fuel data) = data.
Proof.
  revert data. induction fuel as [|fuel IH]; intros data Hlt; [lia|].
  cbn [read_chunks]. pose proof chunk_size_pos as Hpos.
  destruct (take chunk_size data) as [|b chunk] eqn:Ht.
  - destruct data as [|x data]; [done|].
    destruct chunk_size; [lia|done].
  - cbn [concat]. rewrite IH.
    + by rewrite <- Ht, take_drop.
    + rewrite length_drop. destruct data; [done|]. cbn [length] in *. lia.
Qed.

Lemma mock_transact_enter sel target user (m : MockManifest) :
  status sel target user m ≠ Some in_progress →
  transact_enter sel target user m
  = Ok (mock_set (sel, target, user) in_progress m).
Proof.
  cbn [status transact_enter mock_manifest].
  destruct (m (sel, target, user)) as [[]|]; done.
Qed.

Lemma with_transact_mock sel target user body (m : MockManifest) :
  status sel target user m ≠ Some in_progress →
  match body with
  | Ok _ =>
      (with_transact sel target user body m).1 = Ok ()
      ∧ status sel target user (with_transact sel target user body m).2
        = Some success
  | Raise e =>
      (with_transact sel target user body m).1 = Raise e
      ∧ status sel target user (with_transact sel target user body m).2
        = Some (failure e)
  end.
Proof.
  intros Hfree. unfold with_transact.
  rewrite mock_transact_enter by done.
  destruct body as [[]|e]; cbn [transact_exit status mock_manifest fst snd];
    by rewrite mock_set_lookup.
Qed.

Lemma fetch_data_transact `{Manifest M} config client (m : M) store sel target :
  prepare_target_name config = Ok target →
  selection config = Some sel →
  fetch_data config client m store
  = with_transact sel target (user_of config)
      (fetch_body (dict_get_default "dataset" (VStr "") (parameters config))
         sel target client store) m.
Proof.
  intros Hname Hsel. unfold fetch_data, getitem_selection.
  by rewrite Hname, Hsel.
Qed.

(** C2: in a Manifest transaction on a (selection, target, user) key that
    was entered, a body that completes leaves the entry [success]; a body
    that raises leaves it [failure] with the error recorded, and the same
    exception reaches the caller.  This holds for any body, and so for
    [fetch_data], whose body is the retrieval and the upload. *)
Theorem transaction_records_outcome (m : MockManifest) sel target user :
  status sel target user m ≠ Some in_progress →
  (∀ body,
     let r := with_transact sel target user body m in
     match body with
     | Ok _ => r.1 = Ok () ∧ status sel target user r.2 = Some success
     | Raise e => r.1 = Raise e ∧ status sel target user r.2 = Some (failure e)
     end)
  ∧ (∀ config client store,
       prepare_target_name config = Ok target →
       selection config = Some sel →
       user_of config = user →
       let r := fetch_data config client m store in
       match fetch_body (dict_get_default "dataset" (VStr "") (parameters config))
               sel target client store with
       | Ok _ => r.1 = Ok () ∧ status sel target user r.2 = Some success
       | Raise e =>
           r.1 = Raise e ∧ status sel target user r.2 = Some (failure e)
       end).
Proof.
  intros Hfree. split.
  - intros body. by apply with_transact_mock.
  - intros config client store Hname Hsel <-. cbn zeta.
    rewrite (fetch_data_transact _ _ _ _ sel target) by done.
    by apply with_transact_mock.
Qed.

Lemma transaction_records_outcome_witness :
  let sel := year_month_selection in
  let target := "data-2020-01.nc" in
  let user := VStr "unknown" in
  let failed :=
    fetch_data year_month_config failing_client empty_manifest empty_store in
  let done_ :=
    fetch_data year_month_config constant_client empty_manifest empty_store in
  status sel target user empty_manifest ≠ Some in_progress
  ∧ failed.1 = Raise (ClientError "quota")
  ∧ status sel target user failed.2 = Some (failure (ClientError "quota"))
  ∧ done_.1 = Ok ()
  ∧ status sel target user done_.2 = Some success.
Proof.
  intros sel target user failed done_.
  assert (status sel target user empty_manifest ≠ Some in_progress) as Hfree
    by done.
  destruct (transaction_records_outcome empty_manifest sel target user Hfree)
    as [_ Hfetch].
  pose proof (Hfetch year_month_config failing_client empty_store
                eq_refl eq_refl eq_refl) as [Hf1 Hf2].
  pose proof (Hfetch year_month_config constant_client empty_store
                eq_refl eq_refl eq_refl) as [Hd1 Hd2].
  by split_and!.
Defined.

(** ** The expander as a whole *)

Lemma prepare_partition_cases config store :
  (∃ e, prepare_partition config store = ([], Some e)
        ∧ candidates config = [])
  ∨ prepare_partition config store = emit store (candidates config).
Proof.
  destruct (partition_keys_of config) as [keys|e] eqn:Hk.
  - destruct (mapM (λ key, sel_getitem key (selection_of config)) keys)
      as [pools|e] eqn:Hp.
    + right. by eapply prepare_partition_setup.
    + left. exists e. unfold prepare_partition, candidates.
      by rewrite Hk, Hp.
  - left. exists e. unfold prepare_partition, candidates. by rewrite Hk.
Qed.

Lemma prepare_partition_registered config store :
  registered_before_yield store (prepare_partition config store).1.
Proof.
  destruct (prepare_partition_cases config store) as [(e & -> & _)| ->].
  - constructor.
  - apply emit_registered, candidates_selection.
Qed.

Lemma prepare_partition_sublist config store :
  yielded (prepare_partition config store).1 `sublist_of` candidates config.
Proof.
  destruct (prepare_partition_cases config store) as [(e & -> & _)| ->].
  - apply sublist_nil_l.
  - apply emit_sublist.
Qed.

Lemma registered_yield_preceded store evs pre out post :
  registered_before_yield store evs →
  evs = pre ++ Yielded out :: post →
  ∃ pre' sel location,
    pre = pre' ++ [Scheduled sel location (user_of out)]
    ∧ selection out = Some sel
    ∧ prepare_target_name out = Ok location
    ∧ skip_partition out store = Ok false.
Proof.
  intros Hreg. revert pre.
  induction Hreg as [|out0 sel location evs Hsel Hname Hskip _ IH];
    intros pre Heq.
  - by destruct pre.
  - destruct pre as [|ev1 [|ev2 pre]]; simplify_eq/=.
    + exists [], sel, location. done.
    + destruct (IH pre eq_refl) as (pre' & sel' & loc' & -> & ? & ? & ?).
      exists (Scheduled sel location (user_of out0) :: Yielded out0 :: pre'),
        sel', loc'. done.
Qed.

Lemma registered_scheduled_yielded store evs sel location user :
  registered_before_yield store evs →
  Scheduled sel location user ∈ evs →
  ∃ out, out ∈ yielded evs ∧ user = user_of out
         ∧ selection out = Some sel ∧ prepare_target_name out = Ok location.
Proof.
  induction 1 as [|out0 sel0 loc0 evs Hsel Hname Hskip _ IH].
  - by intros ?%elem_of_nil.
  - rewrite yielded_cons_scheduled, yielded_cons_yielded.
    intros [Heq|Hin]%elem_of_cons.
    + simplify_eq. exists out0. split_and!; [by left|done..].
    + apply elem_of_cons in Hin as [?|Hin]; [done|].
      destruct (IH Hin) as (out & ? & ? & ? & ?).
      exists out. split_and!; [by right|done..].
Qed.

Lemma registered_counts store evs :
  registered_before_yield store evs →
  length (scheduled_calls evs) = length (yielded evs).
Proof. induction 1; simpl; [done|by f_equal]. Qed.

Lemma candidate_parameters config out :
  out ∈ candidates config →
  ∃ g, (g = [] ∨ g ∈ extra_params (parameters config))
       ∧ parameters out = dict_update (parameters config) g.
Proof.
  unfold candidates. destruct (partition_keys_of config) as [keys|];
    [|by intros ?%elem_of_nil].
  destruct (mapM _ keys) as [pools|]; [|by intros ?%elem_of_nil].
  intros (i & Hi)%list_elem_of_lookup.
  apply candidates_of_lookup in Hi as (o & g & _ & Hg & ->).
  exists g. split; [|done].
  apply params_take_overlay in Hg.
  destruct (extra_params (parameters config)) as [|g0 gs]; [by left|].
  right. by eapply list_elem_of_lookup_2.
Qed.

(** C4: every Partition the Expander yields was registered by a
    [manifest.schedule] call carrying its narrowed selection, its computed
    target and its user, made right before the [yield]; every
    [manifest.schedule] call is for a Partition that passed the skip check
    and is yielded next, so skipped candidates are never registered. *)
Theorem yielded_partitions_are_scheduled config store :
  let evs := (prepare_partition config store).1 in
  registered_before_yield store evs
  ∧ (∀ pre out post,
       evs = pre ++ Yielded out :: post →
       ∃ pre' sel location,
         pre = pre' ++ [Scheduled sel location (user_of out)]
         ∧ selection out = Some sel
         ∧ prepare_target_name out = Ok location
         ∧ skip_partition out store = Ok false)
  ∧ length (scheduled_calls evs) = length (yielded evs).
Proof.
  intros evs.
  pose proof (prepare_partition_registered config store) as Hreg.
  split_and!; [done| |by eapply registered_counts].
  intros pre out post. by apply registered_yield_preceded.
Qed.

Lemma yielded_partitions_are_scheduled_witness :
  let out :=
    make_out year_month_config
      (<["year" := ["2020"]]> (<["month" := ["02"]]> ∅)) [] in
  ∃ pre' sel location,
    [Scheduled (<["year" := ["2020"]]> (<["month" := ["01"]]> ∅))
       "data-2020-01.nc" (VStr "unknown");
     Yielded (make_out year_month_config
                (<["year" := ["2020"]]> (<["month" := ["01"]]> ∅)) []);
     Scheduled (<["year" := ["2020"]]> (<["month" := ["02"]]> ∅))
       "data-2020-02.nc" (VStr "unknown")]
    = pre' ++ [Scheduled sel location (user_of out)]
    ∧ selection out = Some sel
    ∧ prepare_target_name out = Ok location
    ∧ skip_partition out empty_store = Ok false.
Proof.
  intros out.
  destruct (yielded_partitions_are_scheduled year_month_config empty_store)
    as (_ & Hbefore & _).
  apply (Hbefore _ out []). by vm_compute.
Defined.

(** C9: when [user_id] is absent from the [parameters] of a Partition the
    Expander yields, the [manifest.schedule] call made for it and the
    [manifest.transact] call [fetch_data] makes for it both file it under
    ['unknown'], with the same selection and target: one Manifest key.
    When [user_id] is absent from the configuration's [parameters] and
    from its parameter groups, that is so for every Partition. *)
Theorem default_user_is_shared config store :
  (∀ pre out post,
     (prepare_partition config store).1 = pre ++ Yielded out :: post →
     dict_get "user_id" (parameters out) = None →
     ∃ pre' sel target,
       pre = pre' ++ [Scheduled sel target (VStr "unknown")]
       ∧ ∀ M (HM : Manifest M) client (m : M) store',
           fetch_data out client m store'
           = with_transact sel target (VStr "unknown")
               (fetch_body
                  (dict_get_default "dataset" (VStr "") (parameters out))
                  sel target client store') m)
  ∧ (dict_get "user_id" (parameters config) = None →
     Forall (λ g, dict_get "user_id" g = None)
       (extra_params (parameters config)) →
     Forall (λ out, dict_get "user_id" (parameters out) = None)
       (yielded (prepare_partition config store).1)
     ∧ Forall (λ k, k.2 = VStr "unknown")
         (scheduled_calls (prepare_partition config store).1)).
Proof.
  pose proof (prepare_partition_registered config store) as Hreg.
  split.
  - intros pre out post Heq Huser.
    destruct (registered_yield_preceded _ _ _ _ _ Hreg Heq)
      as (pre' & sel & target & -> & Hsel & Hname & _).
    assert (user_of out = VStr "unknown") as Hu.
    { unfold user_of, dict_get_default. by rewrite Huser. }
    exists pre', sel, target. rewrite Hu. split; [done|].
    intros M HM client m store'.
    by rewrite (fetch_data_transact _ _ _ _ sel target), Hu.
  - intros Htop Hgroups.
    assert (Forall (λ out, dict_get "user_id" (parameters out) = None)
              (yielded (prepare_partition config store).1)) as Hy.
    { apply Forall_forall. intros out Hout.
      assert (out ∈ candidates config) as Hc.
      { eapply elem_of_sublist; [exact Hout|].
        apply prepare_partition_sublist. }
      apply candidate_parameters in Hc as (g & Hg & ->).
      rewrite dict_get_None_update; [done|].
      destruct Hg as [->|Hg]; [done|].
      by eapply Forall_forall in Hgroups. }
    split; [done|].
    apply Forall_forall. intros [[sel target] user] Hk. cbn [snd].
    unfold scheduled_calls in Hk.
    apply list_elem_of_omap in Hk as (ev & Hev & Hsome).
    destruct ev as [sel' target' user'|]; [|done]. simplify_eq.
    destruct (registered_scheduled_yielded _ _ _ _ _ Hreg Hev)
      as (out & Hout & -> & _).
    eapply Forall_forall in Hy; [|exact Hout].
    unfold user_of, dict_get_default. by rewrite Hy.
Qed.

Lemma default_user_is_shared_witness :
  let sel := <["year" := ["2020"]]> (<["month" := ["01"]]> ∅) in
  let out := make_out year_month_config sel [] in
  (∃ pre' sel' target,
     [Scheduled sel "data-2020-01.nc" (VStr "unknown")]
     = pre' ++ [Scheduled sel' target (VStr "unknown")]
     ∧ ∀ M (HM : Manifest M) client (m : M) store',
         fetch_data out client m store'
         = with_transact sel' target (VStr "unknown")
             (fetch_body
                (dict_get_default "dataset" (VStr "") (parameters out))
                sel' target client store') m)
  ∧ Forall (λ k : key, k.2 = VStr "unknown")
      (scheduled_calls (prepare_partition year_month_config empty_store).1).
Proof.
  intros sel out.
  destruct (default_user_is_shared year_month_config empty_store)
    as [Hone Hall].
  split.
  - apply (Hone _ out
             [Scheduled (<["year" := ["2020"]]> (<["month" := ["02"]]> ∅))
                "data-2020-02.nc" (VStr "unknown");
              Yielded (make_out year_month_config
                         (<["year" := ["2020"]]> (<["month" := ["02"]]> ∅))
                         [])]);
      by vm_compute.
  - apply Hall; [done|by vm_compute].
Defined.

(** ** Counting and ordering the partitions *)

Lemma pools_of_lookups (sel : gmap string (list string)) keys pools :
  Forall2 (λ key pool, sel !! key = Some pool) keys pools →
  mapM (λ key, sel_getitem key sel) keys = Ok pools.
Proof.
  intros H. apply mapM_Ok_Forall2.
  eapply Forall2_impl; [exact H|].
  intros key pool Hk. unfold sel_getitem. by rewrite Hk.
Qed.

Lemma product_sizes_zero (sizes : list nat) :
  0 ∈ sizes → foldr Nat.mul 1 sizes = 0.
Proof.
  induction sizes as [|n sizes IH]; [by intros ?%elem_of_nil|].
  intros [<-|Hin]%elem_of_cons; simpl; [done|].
  rewrite IH by done. lia.
Qed.

Lemma candidates_setup config keys pools :
  partition_keys_of config = Ok keys →
  Forall2 (λ key pool, selection_of config !! key = Some pool) keys pools →
  candidates config = candidates_of config keys pools.
Proof.
  intros Hk Hp. unfold candidates.
  by rewrite Hk, (pools_of_lookups _ _ _ Hp).
Qed.


(** C3, as amended: with partition keys bound to value-sequences
    [pools], when no candidate is filtered by the skip check and the Target
    of every candidate can be named, the Expander runs to completion and
    yields as many Partitions as the product of the sizes of the pools;
    when some pool is empty it yields nothing. *)
Theorem expander_yields_product config store keys pools :
  partition_keys_of config = Ok keys →
  Forall2 (λ key pool, selection_of config !! key = Some pool) keys pools →
  (Forall (λ out, skip_partition out store = Ok false
                  ∧ is_ok (prepare_target_name out)) (candidates config) →
   (prepare_partition config store).2 = None
   ∧ length (yielded (prepare_partition config store).1)
     = foldr Nat.mul 1 (length <$> pools))
  ∧ ([] ∈ pools → prepare_partition config store = ([], None)).
Proof.
  intros Hk Hp.
  pose proof (candidates_setup _ _ _ Hk Hp) as Hc.
  destruct (prepare_partition_setup config store keys pools Hk
              (pools_of_lookups _ _ _ Hp)) as [_ Hemit].
  assert (length (candidates config) = foldr Nat.mul 1 (length <$> pools))
    as Hlen by (by rewrite Hc, length_candidates_of, length_product).
  split.
  - intros Hall. rewrite Hemit.
    destruct (emit_all _ _ Hall) as [-> ->]. done.
  - intros Hempty. rewrite Hemit.
    rewrite product_sizes_zero in Hlen.
    + by apply nil_length_inv in Hlen as ->.
    + apply list_elem_of_fmap. by exists [].
Qed.

Lemma expander_yields_product_witness :
  (prepare_partition year_month_config empty_store).2 = None
  ∧ length (yielded (prepare_partition year_month_config empty_store).1)
    = 1 * (2 * 1)
  ∧ prepare_partition
      (mkConfig (Some (<["year" := ["2020"]]> (<["month" := []]> ∅)))
         (parameters year_month_config)) empty_store = ([], None).
Proof.
  destruct (expander_yields_product year_month_config empty_store
              ["year"; "month"] [["2020"]; ["01"; "02"]]) as [Hcount _].
  { done. }
  { by repeat constructor. }
  destruct (expander_yields_product
              (mkConfig (Some (<["year" := ["2020"]]> (<["month" := []]> ∅)))
                 (parameters year_month_config)) empty_store
              ["year"; "month"] [["2020"]; []]) as [_ Hzero].
  { done. }
  { by repeat constructor. }
  split_and!.
  - apply Hcount. repeat constructor; by eexists.
  - apply Hcount. repeat constructor; by eexists.
  - apply Hzero. apply list_elem_of_lookup. by exists 1.
Defined.

(** C3, as stated, fails: without a [target_template] no candidate is
    filtered by the skip check and the product of the sizes is two, yet
    the Expander yields nothing: it raises when it names the first
    Target. *)
Lemma expander_unnamed_target_counterexample :
  let config := untemplated_config in
  let pools := [["2020"]; ["01"; "02"]] in
  partition_keys_of config = Ok ["year"; "month"]
  ∧ Forall2 (λ key pool, selection_of config !! key = Some pool)
      ["year"; "month"] pools
  ∧ Forall (λ out, skip_partition out empty_store = Ok false)
      (candidates config)
  ∧ prepare_partition config empty_store
    = ([], Some (KeyError "target_template"))
  ∧ length (yielded (prepare_partition config empty_store).1)
    ≠ foldr Nat.mul 1 (length <$> pools).
Proof.
  intros config pools. split_and!.
  - done.
  - by repeat constructor.
  - by repeat constructor.
  - by vm_compute.
  - by vm_compute.
Qed.

(** ** Parameter groups *)

Lemma candidate_overlay config i out :
  candidates config !! i = Some out →
  match extra_params (parameters config) with
  | [] => parameters out = dict_update (parameters config) []
  | groups =>
      ∃ g, groups !! (i mod length groups) = Some g
           ∧ parameters out = dict_update (parameters config) g
  end.
Proof.
  unfold candidates. destruct (partition_keys_of config) as [keys|]; [|done].
  destruct (mapM _ keys) as [pools|]; [|done].
  intros (o & g & _ & Hg & ->)%candidates_of_lookup.
  apply params_take_overlay in Hg.
  destruct (extra_params (parameters config)) as [|g0 gs].
  - by subst g.
  - by exists g.
Qed.

Lemma prepare_partition_yielded_lookup config store j out :
  yielded (prepare_partition config store).1 !! j = Some out →
  ∃ i, candidates config !! i = Some out
       ∧ skip_partition out store = Ok false
       ∧ i = j + length (filter (λ o, is_skipped store o)
                           (take i (candidates config))).
Proof.
  destruct (prepare_partition_cases config store) as [(e & -> & _)| ->].
  - done.
  - apply emit_yielded_lookup.
Qed.

Lemma filter_skipped_nil store (outs : list Config) :
  Forall (λ out, skip_partition out store ≠ Ok true) outs →
  filter (λ o, is_skipped store o) outs = [].
Proof.
  induction 1 as [|out outs Hout _ IH]; [done|].
  rewrite filter_cons_False; [done|].
  unfold is_skipped.
  destruct (skip_partition out store) as [[|]|]; [by destruct Hout|..];
    by intros [].
Qed.

Lemma yielded_is_candidate_when_none_skipped config store j out :
  Forall (λ out, skip_partition out store ≠ Ok true) (candidates config) →
  yielded (prepare_partition config store).1 !! j = Some out →
  candidates config !! j = Some out.
Proof.
  intros Hnone (i & Hi & _ & Hpos)%prepare_partition_yielded_lookup.
  rewrite filter_skipped_nil in Hpos by (by apply Forall_take).
  cbn [length] in Hpos. replace j with i by lia. done.
Qed.

(** C5, as amended: the parameter groups are assigned round-robin to the
    candidate combinations of the product: the candidate at position [i]
    receives the group at position [i mod m] of the [m] sub-mappings, in
    the order [parameters] lists them.  When no candidate is skipped, the
    [j]-th emitted Partition is the [j]-th candidate, so the first group
    goes to the first emitted Partition, the second to the second, and so
    on, wrapping around; three groups over five Partitions are assigned
    A, B, C, A, B.  When there are no sub-mappings every emitted Partition
    receives the empty overlay. *)
Theorem overlay_follows_candidate_position config store :
  (∀ i out,
     candidates config !! i = Some out →
     match extra_params (parameters config) with
     | [] => parameters out = dict_update (parameters config) []
     | groups =>
         ∃ g, groups !! (i mod length groups) = Some g
              ∧ parameters out = dict_update (parameters config) g
     end)
  ∧ (Forall (λ out, skip_partition out store ≠ Ok true) (candidates config) →
     ∀ j out,
       yielded (prepare_partition config store).1 !! j = Some out →
       candidates config !! j = Some out
       ∧ match extra_params (parameters config) with
         | [] => parameters out = dict_update (parameters config) []
         | groups =>
             ∃ g, groups !! (j mod length groups) = Some g
                  ∧ parameters out = dict_update (parameters config) g
         end)
  ∧ parameters <$> yielded (prepare_partition three_groups_config store).1
    = dict_update (parameters three_groups_config)
      <$> [group_a; group_b; group_c; group_a; group_b]
  ∧ (extra_params (parameters config) = [] →
     Forall (λ out, parameters out = parameters config)
       (yielded (prepare_partition config store).1)).
Proof.
  split_and!.
  - apply candidate_overlay.
  - intros Hnone j out Hj.
    pose proof (yielded_is_candidate_when_none_skipped _ _ _ _ Hnone Hj)
      as Hc.
    split; [done|]. by apply candidate_overlay.
  - by vm_compute.
  - intros Hnogroups. apply Forall_forall. intros out Hout.
    assert (out ∈ candidates config) as Hc.
    { eapply elem_of_sublist; [exact Hout|].
      apply prepare_partition_sublist. }
    apply candidate_parameters in Hc as (g & [->|Hg] & ->); [done|].
    rewrite Hnogroups in Hg. by apply elem_of_nil in Hg.
Qed.

Lemma overlay_follows_candidate_position_witness :
  (∃ g, [group_a; group_b] !! (1 mod 2) = Some g
        ∧ parameters
            (make_out two_groups_config (<["year" := ["2021"]]> ∅) group_b)
          = dict_update (parameters two_groups_config) g)
  ∧ candidates three_groups_config !! 3
    = Some (make_out three_groups_config (<["day" := ["04"]]> ∅) group_a)
  ∧ ∃ g, [group_a; group_b; group_c] !! (3 mod 3) = Some g
         ∧ parameters
             (make_out three_groups_config (<["day" := ["04"]]> ∅) group_a)
           = dict_update (parameters three_groups_config) g.
Proof.
  destruct (overlay_follows_candidate_position two_groups_config empty_store)
    as (Hpos & _ & _).
  destruct (overlay_follows_candidate_position three_groups_config
              empty_store) as (_ & Hnone & _).
  split.
  - apply (Hpos 1
             (make_out two_groups_config (<["year" := ["2021"]]> ∅) group_b)).
    by vm_compute.
  - apply (Hnone ltac:(by repeat constructor) 3
             (make_out three_groups_config (<["day" := ["04"]]> ∅) group_a)).
    by vm_compute.
Defined.

(** C5, as stated, fails: with two groups and the first of two candidates
    skipped, the first emitted Partition carries the second group. *)
Lemma first_emitted_gets_second_group :
  let store := store_with ["data-2020.nc"] in
  extra_params (parameters two_groups_config) = [group_a; group_b]
  ∧ ∃ out,
      yielded (prepare_partition two_groups_config store).1 = [out]
      ∧ parameters out = dict_update (parameters two_groups_config) group_b
      ∧ parameters out ≠ dict_update (parameters two_groups_config) group_a.
Proof.
  intros store. split; [done|].
  eexists. split_and!; [by vm_compute|done|].
  intros H. vm_compute in H. discriminate H.
Qed.

(** C10: the Partition emitted at position [j] is the candidate at some
    position [i] of the full product, [i] being [j] plus the number of
    candidates skipped before it, and the parameter group merged into it
    is the one at position [i mod m], whatever [j] is. *)
Theorem overlay_counts_skipped_candidates config store j out :
  yielded (prepare_partition config store).1 !! j = Some out →
  ∃ i,
    candidates config !! i = Some out
    ∧ i = j + length (filter (λ o, is_skipped store o)
                        (take i (candidates config)))
    ∧ match extra_params (parameters config) with
      | [] => parameters out = dict_update (parameters config) []
      | groups =>
          ∃ g, groups !! (i mod length groups) = Some g
               ∧ parameters out = dict_update (parameters config) g
      end.
Proof.
  intros (i & Hi & _ & Hpos)%prepare_partition_yielded_lookup.
  exists i. split_and!; [done..|]. by apply candidate_overlay.
Qed.

Lemma overlay_counts_skipped_candidates_witness :
  let store := store_with ["data-2020.nc"] in
  let out := make_out two_groups_config (<["year" := ["2021"]]> ∅) group_b in
  yielded (prepare_partition two_groups_config store).1 !! 0 = Some out
  ∧ ∃ i,
      candidates two_groups_config !! i = Some out
      ∧ i = 0 + length (filter (λ o, is_skipped store o)
                          (take i (candidates two_groups_config)))
      ∧ ∃ g, [group_a; group_b] !! (i mod 2) = Some g
             ∧ parameters out = dict_update (parameters two_groups_config) g.
Proof.
  intros store out.
  assert (yielded (prepare_partition two_groups_config store).1 !! 0
          = Some out) as H by (by vm_compute).
  split; [exact H|].
  exact (overlay_counts_skipped_candidates two_groups_config store 0 out H).
Defined.

(** ** Order of the partitions *)

Lemma foldl_insert_lookup_notin (l : list (string * string)) k
    (m : gmap string (list string)) :
  k ∉ l.*1 →
  foldl (λ m kv, <[kv.1 := [kv.2]]> m) m l !! k = m !! k.
Proof.
  revert m. induction l as [|[k0 v0] l IH]; intros m Hk; [done|].
  rewrite fmap_cons in Hk. apply not_elem_of_cons in Hk as [Hne Hk].
  cbn [foldl fst snd]. rewrite IH by done.
  by apply lookup_insert_ne.
Qed.

Lemma narrowed_lookup keys option (sel : gmap string (list string)) j key v :
  NoDup keys → keys !! j = Some key → option !! j = Some v →
  narrowed keys option sel !! key = Some [v].
Proof.
  unfold narrowed. intros Hnd. revert option sel j.
  induction Hnd as [|k0 keys Hnotin Hnd IH]; intros option sel j Hk Ho;
    [done|].
  destruct option as [|v0 option]; [done|].
  destruct j as [|j]; simplify_eq/=.
  - rewrite foldl_insert_lookup_notin.
    + apply lookup_insert_eq.
    + intros Hin. apply Hnotin.
      apply list_elem_of_fmap in Hin as ([k' v'] & -> & Hin).
      apply elem_of_zip_l in Hin. done.
  - by eapply IH.
Qed.

Lemma candidates_of_selections config keys pools :
  selection <$> candidates_of config keys pools
  = (λ option, Some (narrowed keys option (selection_of config)))
    <$> product pools.
Proof.
  apply list_eq. intros i. rewrite !list_lookup_fmap.
  destruct (candidates_of config keys pools !! i) as [out|] eqn:Hi.
  - apply candidates_of_lookup in Hi as (o & g & -> & _ & ->). done.
  - apply lookup_ge_None in Hi. rewrite length_candidates_of in Hi.
    apply lookup_ge_None in Hi. by rewrite Hi.
Qed.

(** C6: the candidates follow the product of the pools, which runs like
    an odometer: all combinations for the first value of the first-listed
    key come first, in the order of the combinations of the remaining
    keys, then those for its second value, and so on.  Each candidate binds
    every partition key to the one value of its combination; the emitted
    Partitions are a subsequence of the candidates.  The two-month scenario
    yields exactly two Partitions, with Targets data-2020-01.nc and
    data-2020-02.nc in that order. *)
Theorem expander_follows_odometer_order :
  (∀ (pool : list string) pools,
     product (pool :: pools) = x ← pool; (λ t, x :: t) <$> product pools)
  ∧ (∀ config store keys pools,
       partition_keys_of config = Ok keys →
       Forall2 (λ key pool, selection_of config !! key = Some pool)
         keys pools →
       selection <$> candidates config
       = (λ option, Some (narrowed keys option (selection_of config)))
         <$> product pools
       ∧ yielded (prepare_partition config store).1
           `sublist_of` candidates config
       ∧ (NoDup keys →
          ∀ option j key v sel,
            keys !! j = Some key → option !! j = Some v →
            narrowed keys option sel !! key = Some [v]))
  ∧ (∀ store,
       (prepare_partition year_month_config store).2 = None
       ∧ selection <$> yielded (prepare_partition year_month_config store).1
         = [Some (<["year" := ["2020"]]> (<["month" := ["01"]]> ∅));
            Some (<["year" := ["2020"]]> (<["month" := ["02"]]> ∅))]
       ∧ mapM prepare_target_name
           (yielded (prepare_partition year_month_config store).1)
         = Ok ["data-2020-01.nc"; "data-2020-02.nc"]).
Proof.
  split_and!.
  - intros pool pools. apply product_cons.
  - intros config store keys pools Hk Hp. split_and!.
    + rewrite (candidates_setup _ _ _ Hk Hp).
      apply candidates_of_selections.
    + apply prepare_partition_sublist.
    + intros Hnd option j key v sel. by apply narrowed_lookup.
  - intros store. split_and!; by vm_compute.
Qed.

Lemma expander_follows_odometer_order_witness :
  product [["2020"; "2021"]; ["01"; "02"]]
  = [["2020"; "01"]; ["2020"; "02"]; ["2021"; "01"]; ["2021"; "02"]]
  ∧ selection <$> candidates year_month_config
    = [Some (<["year" := ["2020"]]> (<["month" := ["01"]]> ∅));
       Some (<["year" := ["2020"]]> (<["month" := ["02"]]> ∅))]
  ∧ mapM prepare_target_name
      (yielded (prepare_partition year_month_config empty_store).1)
    = Ok ["data-2020-01.nc"; "data-2020-02.nc"].
Proof.
  destruct expander_follows_odometer_order as (Hodo & Hcand & Hscen).
  split_and!.
  - by rewrite Hodo.
  - destruct (Hcand year_month_config empty_store ["year"; "month"]
                [["2020"]; ["01"; "02"]]) as (-> & _ & _);
      [done | by repeat constructor | by vm_compute].
  - apply (Hscen empty_store).
Defined.

(** ** The Orchestrator *)






(** * Further properties of the download pipeline *)

(** ** Coverage and distinctness of the combinations *)

Lemma product_elem {A} (pools : list (list A)) option :
  option ∈ product pools ↔ Forall2 (λ v pool, v ∈ pool) option pools.
Proof.
  rewrite product_product_rec. revert option.
  induction pools as [|pool pools IH]; intros option; cbn [product_rec].
  - rewrite list_elem_of_singleton. split; [intros ->; constructor|].
    by intros ->%Forall2_nil_inv_r.
  - rewrite list_elem_of_bind. split.
    + intros (x & Hin & Hx). apply list_elem_of_fmap in Hin as (t & -> & Ht).
      constructor; [done|]. by apply IH.
    + intros (v & t & Hv & Ht & ->)%Forall2_cons_inv_r.
      exists v. split; [|done]. apply list_elem_of_fmap.
      exists t. split; [done|]. by apply IH.
Qed.

Lemma product_NoDup {A} (pools : list (list A)) :
  Forall NoDup pools → NoDup (product pools).
Proof.
  rewrite product_product_rec.
  induction 1 as [|pool pools Hpool _ IH]; cbn [product_rec].
  - apply NoDup_singleton.
  - apply NoDup_bind; [| |done].
    + intros x1 x2 t _ _ (t1 & -> & _)%list_elem_of_fmap
        (t2 & [= -> _] & _)%list_elem_of_fmap. done.
    + intros x _. apply NoDup_fmap_2; [|done]. by intros ?? [= ->].
Qed.

Lemma narrowed_inj keys option option' (sel : gmap string (list string)) :
  NoDup keys →
  length option = length keys → length option' = length keys →
  narrowed keys option sel = narrowed keys option' sel →
  option = option'.
Proof.
  intros Hnd H1 H2 Heq. apply list_eq_same_length with (length keys);
    [done..|].
  intros j v v' Hj Hv Hv'.
  destruct (lookup_lt_is_Some_2 keys j Hj) as [key Hkey].
  pose proof (narrowed_lookup keys option sel j key v Hnd Hkey Hv) as Ha.
  pose proof (narrowed_lookup keys option' sel j key v' Hnd Hkey Hv') as Hb.
  rewrite Heq in Ha. congruence.
Qed.

Lemma candidates_of_NoDup config keys pools :
  NoDup keys → length pools = length keys → Forall NoDup pools →
  NoDup (selection <$> candidates_of config keys pools).
Proof.
  intros Hnd Hlen Hpools. rewrite candidates_of_selections.
  apply NoDup_fmap_2_strong; [|by apply product_NoDup].
  intros o o' Ho Ho' [= Heq].
  apply (narrowed_inj keys o o' (selection_of config)); [done| | |done].
  - rewrite (product_length_elem _ _ Ho). done.
  - rewrite (product_length_elem _ _ Ho'). done.
Qed.


(** X2: with distinct partition keys and value sequences free of
    repetitions, no two candidates, and so no two yielded Partitions, have
    the same selection. *)
Theorem expander_yields_no_duplicates config store keys pools :
  partition_keys_of config = Ok keys →
  Forall2 (λ key pool, selection_of config !! key = Some pool) keys pools →
  NoDup keys → Forall NoDup pools →
  NoDup (selection <$> candidates config)
  ∧ NoDup (selection <$> yielded (prepare_partition config store).1).
Proof.
  intros Hk Hp Hnd Hpools.
  assert (NoDup (selection <$> candidates config)) as Hc.
  { rewrite (candidates_setup _ _ _ Hk Hp).
    apply candidates_of_NoDup; [done| |done].
    symmetry. by eapply Forall2_length. }
  split; [done|].
  eapply sublist_NoDup; [exact Hc|].
  apply fmap_sublist, prepare_partition_sublist.
Qed.

Lemma expander_yields_no_duplicates_witness :
  NoDup (selection <$> candidates year_month_config)
  ∧ NoDup (selection
           <$> yielded (prepare_partition year_month_config empty_store).1).
Proof.
  apply (expander_yields_no_duplicates year_month_config empty_store
           ["year"; "month"] [["2020"]; ["01"; "02"]]).
  - done.
  - by repeat constructor.
  - apply (bool_decide_unpack _). by vm_compute.
  - repeat apply Forall_cons_2; [apply (bool_decide_unpack _); by vm_compute..|].
    apply Forall_nil_2.
Defined.

(** ** What a yielded Partition looks like *)

Lemma foldl_insert_lookup_in (l : list (string * string)) k
    (m : gmap string (list string)) :
  k ∈ l.*1 →
  ∃ v, (k, v) ∈ l ∧ foldl (λ m kv, <[kv.1 := [kv.2]]> m) m l !! k = Some [v].
Proof.
  revert m. induction l as [|[k0 v0] l IH]; intros m Hk.
  - by apply elem_of_nil in Hk.
  - cbn [foldl fst snd]. destruct (decide (k ∈ l.*1)) as [Hin|Hnotin].
    + destruct (IH (<[k0 := [v0]]> m) Hin) as (v & Hv & Hlook).
      exists v. split; [by right|done].
    + rewrite fmap_cons in Hk. apply elem_of_cons in Hk as [->|Hk]; [|done].
      exists v0. split; [by left|].
      rewrite foldl_insert_lookup_notin by done. apply lookup_insert_eq.
Qed.

Lemma narrowed_lookup_other keys option (sel : gmap string (list string)) k :
  k ∉ keys → narrowed keys option sel !! k = sel !! k.
Proof.
  intros Hk. unfold narrowed. apply foldl_insert_lookup_notin.
  intros Hin. apply Hk.
  apply list_elem_of_fmap in Hin as ([k' v'] & -> & Hin).
  by apply elem_of_zip_l in Hin.
Qed.

Lemma narrowed_lookup_key keys pools option
    (sel : gmap string (list string)) k :
  Forall2 (λ key pool, sel !! key = Some pool) keys pools →
  Forall2 (λ v pool, v ∈ pool) option pools →
  k ∈ keys →
  ∃ v pool, narrowed keys option sel !! k = Some [v]
            ∧ sel !! k = Some pool ∧ v ∈ pool.
Proof.
  intros Hp Ho Hk. unfold narrowed.
  assert (length option = length keys) as Hlen.
  { apply Forall2_length in Hp, Ho. lia. }
  destruct (foldl_insert_lookup_in (zip keys option) k sel)
    as (v & Hv & Hlook).
  { by rewrite fst_zip by lia. }
  apply list_elem_of_lookup in Hv as [j Hj].
  apply lookup_zip_Some in Hj as [Hkj Hoj].
  destruct (Forall2_lookup_l _ _ _ _ _ Hp Hkj) as (pool & Hpool & Hsel).
  destruct (Forall2_lookup_l _ _ _ _ _ Ho Hoj) as (pool' & Hpool' & Hin).
  exists v, pool. split_and!; [done..|]. congruence.
Qed.

(** X3: in every yielded Partition each partition key is bound to exactly
    one value, taken from the sequence the configuration binds to that
    key, and every other key of the selection is as the configuration has
    it. *)
Theorem yielded_selection_is_narrowed config store keys pools out :
  partition_keys_of config = Ok keys →
  Forall2 (λ key pool, selection_of config !! key = Some pool) keys pools →
  out ∈ yielded (prepare_partition config store).1 →
  ∃ sel,
    selection out = Some sel
    ∧ (∀ k, k ∈ keys →
         ∃ v pool, sel !! k = Some [v]
                   ∧ selection_of config !! k = Some pool ∧ v ∈ pool)
    ∧ (∀ k, k ∉ keys → sel !! k = selection_of config !! k).
Proof.
  intros Hk Hp Hout.
  assert (out ∈ candidates config) as Hc.
  { eapply elem_of_sublist; [exact Hout|]. apply prepare_partition_sublist. }
  rewrite (candidates_setup _ _ _ Hk Hp) in Hc.
  apply list_elem_of_lookup in Hc as [i Hi].
  apply candidates_of_lookup in Hi as (o & g & Ho & _ & ->).
  apply list_elem_of_lookup_2, product_elem in Ho.
  eexists. split; [done|]. split.
  - intros k Hin. by eapply narrowed_lookup_key.
  - intros k Hnotin. by apply narrowed_lookup_other.
Qed.

Lemma yielded_selection_is_narrowed_witness :
  ∃ sel,
    selection (make_out year_month_config
                 (<["year" := ["2020"]]> (<["month" := ["02"]]> ∅)) [])
    = Some sel
    ∧ (∀ k, k ∈ ["year"; "month"] →
         ∃ v pool, sel !! k = Some [v]
                   ∧ selection_of year_month_config !! k = Some pool
                   ∧ v ∈ pool)
    ∧ (∀ k, k ∉ ["year"; "month"] →
         sel !! k = selection_of year_month_config !! k).
Proof.
  apply (yielded_selection_is_narrowed year_month_config empty_store
           ["year"; "month"] [["2020"]; ["01"; "02"]]).
  - done.
  - by repeat constructor.
  - apply list_elem_of_lookup. exists 1. by vm_compute.
Defined.

(** X4: a yielded Partition whose [force_download] is bound to a false
    value has a Target at which the Store holds no object: nothing that
    exists is fetched again unless forced. *)
Theorem yielded_target_is_absent config store out v :
  out ∈ yielded (prepare_partition config store).1 →
  dict_get "force_download" (parameters out) = Some v →
  truthy v = false →
  ∃ target, prepare_target_name out = Ok target
            ∧ store_exists store target = false.
Proof.
  intros Hout Hfd Hv.
  apply list_elem_of_lookup in Hout as [j Hj].
  apply prepare_partition_yielded_lookup in Hj as (i & _ & Hskip & _).
  rewrite (skip_partition_unforced _ _ v) in Hskip by done.
  destruct (prepare_target_name out) as [target|e]; [|done].
  cbn [mbind result_bind] in Hskip. exists target. split; [done|].
  congruence.
Qed.

Lemma yielded_target_is_absent_witness :
  let store := store_with ["data-2020.nc"] in
  ∃ target,
    prepare_target_name
      (make_out two_groups_config (<["year" := ["2021"]]> ∅) group_b)
    = Ok target
    ∧ store_exists store target = false.
Proof.
  intros store.
  apply (yielded_target_is_absent two_groups_config store _ (VBool false)).
  - apply list_elem_of_lookup. exists 0. by vm_compute.
  - done.
  - done.
Defined.

Lemma emit_filter store outs :
  (emit store outs).2 = None →
  yielded (emit store outs).1 = filter (λ o, ¬ is_skipped store o) outs.
Proof.
  induction outs as [|out outs IH]; cbn [emit]; [done|].
  destruct (skip_partition out store) as [[|]|e] eqn:Hskip; [| |done].
  - intros Hok. rewrite filter_cons_False; [by apply IH|].
    unfold is_skipped. rewrite Hskip. by intros [].
  - destruct (prepare_target_name out) as [location|e]; [|done].
    cbn [fst snd]. intros Hok.
    rewrite yielded_cons_scheduled, yielded_cons_yielded.
    rewrite filter_cons_True; [by rewrite IH|].
    unfold is_skipped. rewrite Hskip. by intros [].
Qed.

(** X5: when the Expander runs to completion, the Partitions it yields
    are the candidates the skip check did not filter, in the order of the
    candidates, and the [manifest.schedule] calls are those Partitions'
    keys in the same order. *)
Theorem completed_expansion_is_a_filter config store :
  (prepare_partition config store).2 = None →
  yielded (prepare_partition config store).1
  = filter (λ o, ¬ is_skipped store o) (candidates config)
  ∧ Forall2 (λ k out, selection out = Some k.1.1
                      ∧ prepare_target_name out = Ok k.1.2
                      ∧ user_of out = k.2)
      (scheduled_calls (prepare_partition config store).1)
      (yielded (prepare_partition config store).1).
Proof.
  intros Hok. split.
  - destruct (prepare_partition_cases config store) as [(e & Heq & _)|Heq];
      rewrite Heq in Hok |- *; [done|]. by apply emit_filter.
  - pose proof (prepare_partition_registered config store) as Hreg.
    induction Hreg as [|out sel location evs Hsel Hname _ _ IH];
      [constructor|].
    cbn. constructor; [done|]. apply IH.
Qed.

Lemma completed_expansion_is_a_filter_witness :
  let store := store_with ["data-2020.nc"] in
  yielded (prepare_partition two_groups_config store).1
  = filter (λ o, ¬ is_skipped store o) (candidates two_groups_config).
Proof.
  intros store.
  apply (completed_expansion_is_a_filter two_groups_config store).
  by vm_compute.
Defined.




(** ** Failures of the expander and of the skip check *)

(** X6: the Expander fails before producing anything when
    [partition_keys] is missing, and when a partition key is absent from
    the selection (the keys before it being present): it raises the
    [KeyError] of that key, and nothing is scheduled or yielded, whatever
    the Store holds. *)
Theorem expander_fails_fast config store :
  (dict_get "partition_keys" (parameters config) = None →
   prepare_partition config store = ([], Some (KeyError "partition_keys")))
  ∧ (∀ keys pre key post,
       partition_keys_of config = Ok keys →
       keys = pre ++ key :: post →
       Forall (λ k, is_Some (selection_of config !! k)) pre →
       selection_of config !! key = None →
       prepare_partition config store = ([], Some (KeyError key))).
Proof.
  split.
  - intros Hpk. unfold prepare_partition, partition_keys_of, getitem.
    by rewrite Hpk.
  - intros keys pre key post Hk -> Hpre Hkey.
    unfold prepare_partition. rewrite Hk.
    rewrite (mapM_raises_first _ pre key post (KeyError key)); [done| |].
    + eapply Forall_impl; [exact Hpre|]. intros k [vs Hvs].
      exists vs. unfold sel_getitem. by rewrite Hvs.
    + unfold sel_getitem. by rewrite Hkey.
Qed.

Lemma expander_fails_fast_witness :
  prepare_partition missing_key_config
    (store_with ["data-2020-01.nc"]) = ([], Some (KeyError "month")).
Proof.
  destruct (expander_fails_fast missing_key_config
              (store_with ["data-2020-01.nc"])) as [_ H].
  apply (H ["year"; "month"] ["year"] "month" []); [done | done | | done].
  repeat constructor. by eexists.
Defined.

(** X7: the skip check raises only when it has to name the Target:
    [force_download] is bound to a false value and the Target Namer
    raises; the exception is the Namer's.  With [force_download] unset or
    true it answers even for a configuration whose Target cannot be
    named. *)
Theorem skip_partition_raises_iff config store e :
  skip_partition config store = Raise e ↔
  ∃ v, dict_get "force_download" (parameters config) = Some v
       ∧ truthy v = false
       ∧ prepare_target_name config = Raise e.
Proof.
  destruct (dict_get "force_download" (parameters config)) as [v|] eqn:Hfd.
  - destruct (truthy v) eqn:Hv.
    + rewrite (skip_partition_forced _ _ v) by done.
      split; [done|]. intros (v' & [= <-] & ? & _). congruence.
    + rewrite (skip_partition_unforced _ _ v) by done.
      destruct (prepare_target_name config) as [target|e'];
        cbn [mbind result_bind].
      * split; [done|]. by intros (? & _ & _ & ?).
      * split; [intros [= ->]; by exists v|].
        by intros (? & _ & _ & [= ->]).
  - rewrite skip_partition_unset by done.
    split; [done|]. by intros (? & ? & _).
Qed.

(** ** Targets *)

Lemma key_value_narrowed config keys option sel params j key v :
  NoDup keys → keys !! j = Some key → option !! j = Some v →
  key_value (make_out config (narrowed keys option sel) params) key = Ok v.
Proof.
  intros Hnd Hk Hv. unfold key_value, getitem_selection, sel_getitem.
  cbn [selection make_out mbind result_bind].
  by rewrite (narrowed_lookup keys option sel j key v).
Qed.

(** X8: the Target of a Partition narrowed to one combination is the
    template formatted with the values of that combination, in the order
    of the partition keys (which are taken to be distinct). *)
Theorem target_of_narrowed_partition config keys option sel params template :
  NoDup keys → length option = length keys →
  partition_keys_of (make_out config (narrowed keys option sel) params)
  = Ok keys →
  getitem "target_template"
    (parameters (make_out config (narrowed keys option sel) params))
  = Ok template →
  prepare_target_name (make_out config (narrowed keys option sel) params)
  = value_format template option.
Proof.
  intros Hnd Hlen Hk Ht. unfold prepare_target_name. rewrite Hk.
  cbn [mbind result_bind].
  assert (mapM (key_value (make_out config (narrowed keys option sel) params))
            keys = Ok option) as ->.
  { apply mapM_Ok_Forall2. apply Forall2_same_length_lookup_2; [done|].
    intros j key v Hkey Hv. by eapply key_value_narrowed. }
  cbn [mbind result_bind]. by rewrite Ht.
Qed.

Lemma target_of_narrowed_partition_witness :
  prepare_target_name
    (make_out year_month_config
       (narrowed ["year"; "month"] ["2020"; "02"] year_month_selection) [])
  = value_format (VStr "data-{}-{}.nc") ["2020"; "02"].
Proof.
  apply (target_of_narrowed_partition year_month_config ["year"; "month"]
           ["2020"; "02"] year_month_selection []
           (VStr "data-{}-{}.nc")); [|done..].
  apply (bool_decide_unpack _). by vm_compute.
Defined.

(** X9: when every partition key has a first value and the template is
    brace-free text around at most as many [{}] fields as there are keys,
    the Target Namer succeeds: the fields take the first values in key
    order and surplus values are ignored. *)
Theorem target_name_of_auto_template config keys values lits tail :
  partition_keys_of config = Ok keys →
  mapM (key_value config) keys = Ok values →
  dict_get "target_template" (parameters config)
  = Some (VStr (auto_template lits tail)) →
  Forall (λ lit, brace_free lit) lits → brace_free tail →
  length lits ≤ length values →
  prepare_target_name config = Ok (interleave_values lits values tail).
Proof.
  intros Hk Hv Ht Hlits Htail Hlen. unfold prepare_target_name, getitem.
  rewrite Hk. cbn [mbind result_bind]. rewrite Hv. cbn [mbind result_bind].
  rewrite Ht. cbn [mbind result_bind value_format].
  rewrite format_auto_template by done. by rewrite decide_True.
Qed.

Lemma target_name_of_auto_template_witness :
  prepare_target_name
    (mkConfig (Some year_month_selection)
       [("partition_keys", VList ["year"; "month"]);
        ("target_template", VStr "era5-{}.nc")])
  = Ok "era5-2020.nc".
Proof.
  apply (target_name_of_auto_template _ ["year"; "month"] ["2020"; "01"]
           ["era5-"] ".nc"); [done | by vm_compute | done | | done | ].
  - by repeat constructor.
  - simpl. lia.
Defined.

Lemma format_go_escape_braces s st args :
  format_go (escape_braces s) None st args = Ok s.
Proof.
  induction s as [|c s IH]; [done|]. cbn [escape_braces].
  destruct (Ascii.eqb c "{") eqn:Ho.
  - apply Ascii.eqb_eq in Ho as ->. cbn [orb format_go].
    by rewrite IH.
  - destruct (Ascii.eqb c "}") eqn:Hc.
    + apply Ascii.eqb_eq in Hc as ->. cbn [orb format_go].
      by rewrite IH.
    + cbn [orb]. rewrite format_go_plain_char by done. by rewrite IH.
Qed.

(** X10: a template in which every brace of a text is doubled names that
    text, whatever the partition-key values are. *)
Theorem target_name_of_escaped_text config keys values s :
  partition_keys_of config = Ok keys →
  mapM (key_value config) keys = Ok values →
  dict_get "target_template" (parameters config)
  = Some (VStr (escape_braces s)) →
  prepare_target_name config = Ok s.
Proof.
  intros Hk Hv Ht. unfold prepare_target_name, getitem.
  rewrite Hk. cbn [mbind result_bind]. rewrite Hv. cbn [mbind result_bind].
  rewrite Ht. cbn [mbind result_bind value_format]. unfold format.
  apply format_go_escape_braces.
Qed.

Lemma target_name_of_escaped_text_witness :
  prepare_target_name
    (mkConfig (Some year_month_selection)
       [("partition_keys", VList ["year"]);
        ("target_template", VStr "{{era5}}.nc")])
  = Ok "{era5}.nc".
Proof.
  apply (target_name_of_escaped_text _ ["year"] ["2020"] "{era5}.nc");
    by vm_compute.
Defined.

(** X11: the order in which the Target Namer fails: a missing
    [partition_keys] is reported first; then, key by key, a key bound to an
    empty sequence is an [IndexError]; a missing [target_template] is
    reported only once every key has given its first value. *)
Theorem prepare_target_name_failure_order config :
  (dict_get "partition_keys" (parameters config) = None →
   prepare_target_name config = Raise (KeyError "partition_keys"))
  ∧ (∀ sel keys pre key post,
       partition_keys_of config = Ok keys →
       selection config = Some sel →
       keys = pre ++ key :: post →
       Forall (λ k, ∃ v vs, sel !! k = Some (v :: vs)) pre →
       sel !! key = Some [] →
       prepare_target_name config = Raise IndexError)
  ∧ (∀ keys values,
       partition_keys_of config = Ok keys →
       mapM (key_value config) keys = Ok values →
       dict_get "target_template" (parameters config) = None →
       prepare_target_name config = Raise (KeyError "target_template")).
Proof.
  split_and!.
  - intros Hpk. unfold prepare_target_name, partition_keys_of, getitem.
    by rewrite Hpk.
  - intros sel keys pre key post Hk Hsel -> Hpre Hkey.
    unfold prepare_target_name. rewrite Hk. cbn [mbind result_bind].
    rewrite (mapM_raises_first _ pre key post IndexError); [done| |].
    + eapply Forall_impl; [exact Hpre|].
      intros k (v & vs & Hv). exists v.
      unfold key_value, getitem_selection, sel_getitem. rewrite Hsel.
      cbn [mbind result_bind]. by rewrite Hv.
    + unfold key_value, getitem_selection, sel_getitem. rewrite Hsel.
      cbn [mbind result_bind]. by rewrite Hkey.
  - intros keys values Hk Hv Ht. unfold prepare_target_name, getitem.
    rewrite Hk. cbn [mbind result_bind]. rewrite Hv.
    cbn [mbind result_bind]. by rewrite Ht.
Qed.

Lemma prepare_target_name_failure_order_witness :
  prepare_target_name
    (mkConfig (Some (<["year" := ["2020"]]> (<["month" := []]> ∅)))
       [("partition_keys", VList ["year"; "month"])])
  = Raise IndexError
  ∧ prepare_target_name
      (mkConfig (Some year_month_selection)
         [("partition_keys", VList ["year"; "month"])])
    = Raise (KeyError "target_template").
Proof.
  split.
  - destruct (prepare_target_name_failure_order
                (mkConfig (Some (<["year" := ["2020"]]> (<["month" := []]> ∅)))
                   [("partition_keys", VList ["year"; "month"])]))
      as (_ & H & _).
    apply (H (<["year" := ["2020"]]> (<["month" := []]> ∅))
             ["year"; "month"] ["year"] "month" []);
      [done | done | done | | by vm_compute].
    repeat constructor. by exists "2020", [].
  - destruct (prepare_target_name_failure_order
                (mkConfig (Some year_month_selection)
                   [("partition_keys", VList ["year"; "month"])]))
      as (_ & _ & H).
    apply (H ["year"; "month"] ["2020"; "01"]); by vm_compute.
Defined.

(** ** The parameter overlay *)

Lemma dict_get_None_notin k (d : dict) : k ∉ d.*1 → dict_get k d = None.
Proof.
  induction d as [|[k' v'] d IH]; [done|]. rewrite fmap_cons.
  intros [Hne Hk]%not_elem_of_cons. cbn [dict_get].
  destruct (String.eqb k k') eqn:E; [|by apply IH].
  apply String.eqb_eq in E. done.
Qed.

Lemma dict_get_update_Some k v (d p : dict) :
  NoDup p.*1 → dict_get k p = Some v →
  dict_get k (dict_update d p) = Some v.
Proof.
  unfold dict_update. revert d.
  induction p as [|[k0 v0] p IH]; intros d Hnd Hk; [done|].
  rewrite fmap_cons in Hnd. apply NoDup_cons in Hnd as [Hnotin Hnd].
  cbn [dict_get] in Hk. cbn [foldl fst snd].
  destruct (String.eqb k k0) eqn:E.
  - apply String.eqb_eq in E as ->. injection Hk as ->.
    fold (dict_update (dict_set k0 v d) p).
    rewrite dict_get_None_update by (by apply dict_get_None_notin).
    apply dict_get_set_eq.
  - by apply IH.
Qed.

Lemma dict_set_keys_prefix k v (d : dict) :
  d.*1 `prefix_of` (dict_set k v d).*1.
Proof.
  induction d as [|[k' v'] d IH]; cbn [dict_set].
  - apply prefix_nil.
  - destruct (String.eqb k k'); [done|].
    rewrite !fmap_cons. by apply prefix_cons.
Qed.

Lemma dict_update_keys_prefix (d p : dict) :
  d.*1 `prefix_of` (dict_update d p).*1.
Proof.
  unfold dict_update. revert d.
  induction p as [|[k v] p IH]; intros d; [done|]. cbn [foldl fst snd].
  etrans; [apply (dict_set_keys_prefix k v)|apply IH].
Qed.

(** X12: the [parameters] of a candidate are the configuration's
    overlaid with one parameter group (or with nothing): a key the group
    does not bind keeps the configuration's value, a key it binds takes the
    group's, and the configuration's keys keep their places, new keys
    going after them. *)
Theorem candidate_parameters_overlay config out :
  out ∈ candidates config →
  ∃ g,
    (g = [] ∨ g ∈ extra_params (parameters config))
    ∧ (∀ k, dict_get k g = None →
            dict_get k (parameters out) = dict_get k (parameters config))
    ∧ (NoDup g.*1 →
       ∀ k v, dict_get k g = Some v → dict_get k (parameters out) = Some v)
    ∧ (parameters config).*1 `prefix_of` (parameters out).*1.
Proof.
  intros (g & Hg & ->)%candidate_parameters. exists g. split_and!.
  - done.
  - intros k Hk. by apply dict_get_None_update.
  - intros Hnd k v Hk. by apply dict_get_update_Some.
  - apply dict_update_keys_prefix.
Qed.

Lemma candidate_parameters_overlay_witness :
  let out :=
    make_out two_groups_config (<["year" := ["2021"]]> ∅) group_b in
  ∃ g,
    (g = [] ∨ g ∈ extra_params (parameters two_groups_config))
    ∧ (∀ k, dict_get k g = None →
            dict_get k (parameters out)
            = dict_get k (parameters two_groups_config))
    ∧ (NoDup g.*1 →
       ∀ k v, dict_get k g = Some v → dict_get k (parameters out) = Some v)
    ∧ (parameters two_groups_config).*1 `prefix_of` (parameters out).*1.
Proof.
  intros out.
  apply (candidate_parameters_overlay two_groups_config out).
  apply list_elem_of_lookup. exists 1. by vm_compute.
Defined.

(** ** The upload loop *)

Lemma read_chunks_bounds fuel data :
  Forall (λ chunk, 0 < length chunk ≤ chunk_size) (read_chunks fuel data).
Proof.
  revert data. induction fuel as [|fuel IH]; intros data; [constructor|].
  cbn [read_chunks].
  destruct (take chunk_size data) as [|b chunk] eqn:Ht; [constructor|].
  constructor; [|apply IH]. rewrite <- Ht.
  split; [rewrite Ht; cbn [length]; lia|].
  rewrite length_take. lia.
Qed.

Lemma read_chunks_S fuel data :
  read_chunks (S fuel) data
  = match take chunk_size data with
    | [] => []
    | b :: chunk => (b :: chunk) :: read_chunks fuel (drop chunk_size data)
    end.
Proof. cbn [read_chunks]. by destruct (take chunk_size data). Qed.

Lemma take_full_of_more {A} n (data : list A) :
  take n (drop n data) ≠ [] → length (take n data) = n.
Proof.
  intros Hne. rewrite length_take.
  destruct (decide (n ≤ length data)) as [|Hshort]; [lia|].
  rewrite drop_ge in Hne by lia. by rewrite take_nil in Hne.
Qed.

Lemma read_chunks_full fuel data i chunk :
  read_chunks fuel data !! i = Some chunk →
  S i < length (read_chunks fuel data) →
  length chunk = chunk_size.
Proof.
  revert data i. induction fuel as [|fuel IH]; intros data i; [done|].
  rewrite read_chunks_S.
  destruct (take chunk_size data) as [|b c] eqn:Ht; [done|].
  destruct i as [|i].
  - intros [= <-] Hlen. rewrite <- Ht. apply take_full_of_more.
    destruct fuel as [|fuel]; [cbn [read_chunks length] in Hlen; lia|].
    rewrite read_chunks_S in Hlen.
    destruct (take chunk_size (drop chunk_size data)); [|done].
    cbn [length] in Hlen. lia.
  - intros Hi Hlen. cbn [length] in Hlen.
    apply (IH (drop chunk_size data) i); [done|lia].
Qed.

(** X13: the upload loop of [fetch_data] hands the Store every byte the
    client retrieved, in order, in chunks that are never empty and never
    longer than 8192 bytes, all but the last being exactly 8192 bytes; an
    empty file gives no chunk at all. *)
Theorem upload_chunks_cover_the_file data :
  let chunks := read_chunks (S (length data)) data in
  concat chunks = data
  ∧ Forall (λ chunk, (0 < Z.of_nat (length chunk) ≤ 8192)%Z) chunks
  ∧ (∀ i chunk, chunks !! i = Some chunk → S i < length chunks →
                Z.of_nat (length chunk) = 8192%Z)
  ∧ (data = [] → chunks = []).
Proof.
  intros chunks. subst chunks.
  assert (Z.of_nat chunk_size = 8192%Z) as Hsize.
  { unfold chunk_size. by apply Z2Nat.id. }
  split_and!.
  - apply read_chunks_concat. lia.
  - eapply Forall_impl; [apply read_chunks_bounds|].
    intros chunk Hchunk. cbn beta in Hchunk. lia.
  - intros i chunk Hi Hlen. rewrite <- Hsize. f_equal.
    by eapply read_chunks_full.
  - by intros ->.
Qed.

(** ** What [run] does to the configuration *)

Lemma resolve_config args login config :
  r_config (resolve args login config)
  = (if arg_dry_run args
     then set_parameter "force_download" (VBool true)
     else id)
      (set_parameter "force_download" (VBool (arg_force_download args))
         (set_parameter "user_id" (VStr login)
            (set_parameter "force_download"
               (VBool (arg_force_download args)) config))).
Proof. unfold resolve. by destruct (arg_dry_run args). Qed.

Lemma resolve_selection args login config :
  selection (r_config (resolve args login config)) = selection config.
Proof. rewrite resolve_config. by destruct (arg_dry_run args). Qed.

Lemma resolve_parameters_other args login config k :
  k ≠ "force_download" → k ≠ "user_id" →
  dict_get k (parameters (r_config (resolve args login config)))
  = dict_get k (parameters config).
Proof.
  intros H1 H2. rewrite resolve_config.
  destruct (arg_dry_run args); cbn [id set_parameter parameters];
    by rewrite !dict_get_set_ne.
Qed.

Lemma resolve_force_download args login config :
  dict_get "force_download"
    (parameters (r_config (resolve args login config)))
  = Some (VBool (arg_force_download args || arg_dry_run args)).
Proof.
  rewrite resolve_config.
  destruct (arg_dry_run args); cbn [id set_parameter parameters];
    rewrite dict_get_set_eq; [by rewrite orb_true_r|by rewrite orb_false_r].
Qed.

Lemma resolve_user_id args login config :
  dict_get "user_id" (parameters (r_config (resolve args login config)))
  = Some (VStr login).
Proof.
  rewrite resolve_config.
  destruct (arg_dry_run args); cbn [id set_parameter parameters];
    rewrite !dict_get_set_ne by done; apply dict_get_set_eq.
Qed.

Lemma prepare_target_name_ext config config' :
  selection config = selection config' →
  dict_get "partition_keys" (parameters config)
  = dict_get "partition_keys" (parameters config') →
  dict_get "target_template" (parameters config)
  = dict_get "target_template" (parameters config') →
  prepare_target_name config = prepare_target_name config'.
Proof.
  intros Hsel Hpk Ht.
  unfold prepare_target_name, partition_keys_of, getitem.
  rewrite Hpk, Ht.
  replace (key_value config) with (key_value config'); [done|].
  unfold key_value, getitem_selection. by rewrite Hsel.
Qed.

Lemma resolve_prepare_target_name args login config :
  prepare_target_name (r_config (resolve args login config))
  = prepare_target_name config.
Proof.
  apply prepare_target_name_ext;
    [apply resolve_selection | by apply resolve_parameters_other..].
Qed.

(** X14: whatever the configuration read from the file binds
    [force_download] and [user_id] to, [run] replaces them: by the
    command-line flag, or true in a dry run, and by the login name.
    Without the dry-run flag the client is the one chosen on the command
    line and the store is Cloud Storage. *)
Theorem run_overrides_force_download_and_user args login config :
  let r := resolve args login config in
  dict_get "force_download" (parameters (r_config r))
  = Some (VBool (arg_force_download args || arg_dry_run args))
  ∧ dict_get "user_id" (parameters (r_config r)) = Some (VStr login)
  ∧ r_manifest r = arg_manifest_location args
  ∧ (arg_dry_run args = false →
     r_client r = ConfiguredClient (arg_client args) ∧ r_store r = GcsIO).
Proof.
  intros r. subst r. split_and!.
  - apply resolve_force_download.
  - apply resolve_user_id.
  - unfold resolve. by destruct (arg_dry_run args).
  - intros Hdry. unfold resolve. by rewrite Hdry.
Qed.

(** X15: [run] changes nothing else in the configuration: the selection
    and every parameter other than [force_download] and [user_id] are as
    read, so the partition keys, the Target of the configuration and the
    selections of the candidates are those of the configuration read. *)
Theorem run_preserves_the_rest args login config :
  let r := resolve args login config in
  selection (r_config r) = selection config
  ∧ (∀ k, k ≠ "force_download" → k ≠ "user_id" →
          dict_get k (parameters (r_config r))
          = dict_get k (parameters config))
  ∧ partition_keys_of (r_config r) = partition_keys_of config
  ∧ prepare_target_name (r_config r) = prepare_target_name config
  ∧ selection <$> candidates (r_config r) = selection <$> candidates config.
Proof.
  intros r. subst r.
  pose proof (resolve_selection args login config) as Hsel.
  pose proof (resolve_parameters_other args login config) as Hother.
  assert (partition_keys_of (r_config (resolve args login config))
          = partition_keys_of config) as Hpk.
  { unfold partition_keys_of, getitem. by rewrite Hother. }
  split_and!; [done..| |].
  - apply resolve_prepare_target_name.
  - unfold candidates, selection_of. rewrite Hpk, Hsel.
    destruct (partition_keys_of config) as [keys|]; [|done].
    destruct (mapM _ keys) as [pools|]; [|done].
    rewrite !candidates_of_selections. unfold selection_of.
    by rewrite Hsel.
Qed.

(** X16: in a run without the dry-run and force flags the existence check
    is always made: for the configuration, and for every candidate whose
    parameter group does not rebind [force_download], the skip check
    names the Target and answers what the Store reports for it. *)
Theorem run_without_force_checks_existence args login config :
  arg_dry_run args = false → arg_force_download args = false →
  let r := resolve args login config in
  (∀ store,
     skip_partition (r_config r) store
     = target ← prepare_target_name config;
       Ok (store_exists store target))
  ∧ (∀ store copy params,
       dict_get "force_download" params = None →
       skip_partition (make_out (r_config r) copy params) store
       = target ← prepare_target_name (make_out (r_config r) copy params);
         Ok (store_exists store target)).
Proof.
  intros Hdry Hforce r.
  assert (dict_get "force_download" (parameters (r_config r))
          = Some (VBool false)) as Hfd.
  { subst r. rewrite resolve_force_download. by rewrite Hdry, Hforce. }
  split.
  - intros store. rewrite (skip_partition_unforced _ _ (VBool false)) by done.
    subst r. by rewrite resolve_prepare_target_name.
  - intros store copy params Hp.
    apply (skip_partition_unforced _ _ (VBool false)); [|done].
    cbn [make_out parameters]. by rewrite dict_get_None_update.
Qed.

Lemma run_without_force_checks_existence_witness :
  let r := resolve (mkArgs "cds" false false "mock://") "alice"
             year_month_config in
  skip_partition (r_config r) (store_with ["data-2020-01.nc"]) = Ok true
  ∧ skip_partition (r_config r) empty_store = Ok false.
Proof.
  intros r.
  destruct (run_without_force_checks_existence
              (mkArgs "cds" false false "mock://") "alice" year_month_config
              eq_refl eq_refl) as [H _].
  split; by rewrite H.
Defined.

(** X17: the Partitions [run] hands to the fetch step are filed under the
    login name, never under ['unknown'], as long as no parameter group
    binds [user_id]. *)
Theorem run_files_partitions_under_login stores args login config :
  let r := resolve args login config in
  Forall (λ g, dict_get "user_id" g = None)
    (extra_params (parameters (r_config r))) →
  Forall (λ out, user_of out = VStr login)
    (run stores args login config).2
  ∧ Forall (λ k, k.2 = VStr login)
      (scheduled_calls
         (prepare_partition (r_config r) (stores (r_store r))).1).
Proof.
  intros r Hgroups. unfold run. cbn [snd]. fold r.
  assert (Forall (λ out, user_of out = VStr login)
            (yielded (prepare_partition (r_config r)
                        (stores (r_store r))).1)) as Hy.
  { apply Forall_forall. intros out Hout.
    assert (out ∈ candidates (r_config r)) as Hc.
    { eapply elem_of_sublist; [exact Hout|].
      apply prepare_partition_sublist. }
    apply candidate_parameters in Hc as (g & Hg & Hps).
    unfold user_of, dict_get_default. rewrite Hps.
    rewrite dict_get_None_update.
    - subst r. by rewrite resolve_user_id.
    - destruct Hg as [->|Hg]; [done|].
      by eapply Forall_forall in Hgroups. }
  split; [done|].
  pose proof (prepare_partition_registered (r_config r)
                (stores (r_store r))) as Hreg.
  apply Forall_forall. intros [[sel target] user] Hk. cbn [snd].
  apply list_elem_of_omap in Hk as (ev & Hev & Hsome).
  destruct ev as [sel' target' user'|]; [|done]. simplify_eq.
  destruct (registered_scheduled_yielded _ _ _ _ _ Hreg Hev)
    as (out & Hout & -> & _).
  by eapply Forall_forall in Hy.
Qed.

Lemma run_files_partitions_under_login_witness :
  Forall (λ out, user_of out = VStr "alice")
    (run (λ _, empty_store) dry_run_args "alice" year_month_config).2.
Proof.
  apply (run_files_partitions_under_login (λ _, empty_store) dry_run_args
           "alice" year_month_config).
  by vm_compute.
Defined.


(** ** The NetCDF loader *)

Lemma var_lookup_Some_In column v vars :
  var_lookup column vars = Some v → (column, v) ∈ vars.
Proof.
  induction vars as [|[name w] vars IH]; [done|]. cbn [var_lookup].
  destruct (String.eqb column name) eqn:E.
  - apply String.eqb_eq in E as ->. intros [= ->]. left.
  - intros. right. auto.
Qed.

Lemma var_lookup_In column vars :
  column ∈ vars.*1 → is_Some (var_lookup column vars).
Proof.
  induction vars as [|[name w] vars IH]; [by intros ?%elem_of_nil|].
  rewrite fmap_cons. cbn [var_lookup fst].
  destruct (String.eqb column name) eqn:E; [by eexists|].
  intros [->|Hin]%elem_of_cons; [|by apply IH].
  by rewrite String.eqb_refl in E.
Qed.

Lemma schema_field_Ok ds column f :
  schema_field ds column = Ok f →
  field_name f = column ∧ field_mode f = "REQUIRED"
  ∧ field_type f ∈ ["FLOAT64"; "TIMESTAMP"; "INT64"]
  ∧ ∃ v, var_lookup column (variables ds) = Some v
         ∧ var_size v ≠ 0
         ∧ map_dtype_to_sql_type (var_dtype v) = Ok (field_type f).
Proof.
  unfold schema_field.
  destruct (var_lookup column (variables ds)) as [v|]; [|done].
  destruct (var_size v =? 0) eqn:Hsize; [done|]. cbn [negb].
  apply Nat.eqb_neq in Hsize.
  destruct (map_dtype_to_sql_type (var_dtype v)) as [sql|] eqn:Hsql; [|done].
  intros [= <-]. cbn. split_and!; [done..| |by exists v].
  destruct (var_dtype v); simplify_eq/=; set_solver.
Qed.

Lemma schema_field_raises ds column e :
  column ∈ (variables ds).*1 →
  schema_field ds column = Raise e → e = ValueError.
Proof.
  intros [v Hv]%var_lookup_In. unfold schema_field. rewrite Hv.
  destruct (var_size v =? 0); cbn [negb]; [by intros [= <-]|].
  destruct (var_dtype v); by intros [= <-].
Qed.

Lemma mapM_raises_elem {A B} (f : A → result B) xs e :
  mapM f xs = Raise e → ∃ x, x ∈ xs ∧ f x = Raise e.
Proof.
  induction xs as [|x xs IH]; [done|]. cbn [mapM].
  destruct (f x) as [y|e'] eqn:Hx; cbn [mbind result_bind].
  - destruct (mapM f xs) as [ys|e'] eqn:Hxs; [done|].
    cbn [mbind result_bind]. intros [= ->].
    destruct (IH eq_refl) as (x' & ? & ?). exists x'. by split; [right|].
  - intros [= ->]. exists x. by split; [left|].
Qed.

(** X18: a schema that is produced lists one REQUIRED field per variable
    of the dataset, under the variable's name and in the dataset's order,
    each of type FLOAT64, TIMESTAMP or INT64, followed by the NULLABLE
    TIMESTAMP field [data_import_time]; a dataset without variables gives
    that field alone. *)
Theorem table_schema_shape ds fields :
  dataset_to_table_schema ds = Ok fields →
  ∃ required,
    fields = required
             ++ [mkSchemaField DATA_IMPORT_TIME_COLUMN "TIMESTAMP" "NULLABLE"]
    ∧ field_name <$> required = (variables ds).*1
    ∧ Forall (λ f, field_mode f = "REQUIRED"
                   ∧ field_type f ∈ ["FLOAT64"; "TIMESTAMP"; "INT64"])
        required
    ∧ length fields = S (length (variables ds)).
Proof.
  unfold dataset_to_table_schema.
  destruct (mapM (schema_field ds) (variables ds).*1) as [required|] eqn:Hm;
    [|done].
  cbn [mbind result_bind]. intros [= <-]. exists required.
  apply mapM_Ok_Forall2 in Hm.
  split_and!; [done| | |].
  - apply list_eq_Forall2. apply Forall2_fmap_l, Forall2_flip.
    eapply Forall2_impl; [exact Hm|].
    intros column f Hf. by apply schema_field_Ok in Hf as (-> & _).
  - apply Forall_forall. intros f [i Hi]%list_elem_of_lookup.
    destruct (Forall2_lookup_r _ _ _ _ _ Hm Hi) as (column & _ & Hf).
    by apply schema_field_Ok in Hf as (_ & ? & ? & _).
  - rewrite length_app. apply Forall2_length in Hm.
    rewrite length_fmap in Hm. simpl. lia.
Qed.

Lemma table_schema_shape_witness :
  ∃ required,
    [mkSchemaField "latitude" "FLOAT64" "REQUIRED";
     mkSchemaField "time" "TIMESTAMP" "REQUIRED";
     mkSchemaField "z" "INT64" "REQUIRED";
     mkSchemaField "data_import_time" "TIMESTAMP" "NULLABLE"]
    = required
      ++ [mkSchemaField DATA_IMPORT_TIME_COLUMN "TIMESTAMP" "NULLABLE"]
    ∧ field_name <$> required = ["latitude"; "time"; "z"]
    ∧ Forall (λ f, field_mode f = "REQUIRED"
                   ∧ field_type f ∈ ["FLOAT64"; "TIMESTAMP"; "INT64"])
        required
    ∧ 4 = 4.
Proof.
  apply (table_schema_shape
           (mkDataset [("latitude", mkXrVariable 2 Float32);
                       ("time", mkXrVariable 3 Datetime64ns);
                       ("z", mkXrVariable 6 Int16)])).
  done.
Defined.

Lemma var_lookup_NoDup name v vars :
  NoDup vars.*1 → (name, v) ∈ vars → var_lookup name vars = Some v.
Proof.
  induction vars as [|[name' w] vars IH]; [by intros _ ?%elem_of_nil|].
  rewrite fmap_cons. intros [Hnotin Hnd]%NoDup_cons. cbn [var_lookup].
  intros [[= -> ->]|Hin]%elem_of_cons.
  - by rewrite String.eqb_refl.
  - destruct (String.eqb name name') eqn:E; [|by apply IH].
    apply String.eqb_eq in E as ->. exfalso. apply Hnotin.
    apply list_elem_of_fmap. by exists (name', v).
Qed.

Lemma map_dtype_to_sql_type_ok dt :
  is_ok (map_dtype_to_sql_type dt) ↔
  dt ∈ [Float64; Float32; Datetime64ns; Int8; Int16; Int32; Int64].
Proof.
  split.
  - intros [sql Hsql]. destruct dt; simplify_eq/=; set_solver.
  - intros Hin. repeat (apply elem_of_cons in Hin as [->|Hin]);
      [by eexists..|]. by apply elem_of_nil in Hin.
Qed.

(** X19: the schema is produced exactly when every variable of the
    dataset has at least one value and one of the seven mapped dtypes
    (float64, float32, datetime64[ns], int8, int16, int32, int64);
    otherwise the failure is a [ValueError]. *)
Theorem table_schema_succeeds_iff ds :
  NoDup (variables ds).*1 →
  (is_ok (dataset_to_table_schema ds) ↔
   Forall (λ nv, var_size nv.2 ≠ 0
                 ∧ var_dtype nv.2
                   ∈ [Float64; Float32; Datetime64ns;
                      Int8; Int16; Int32; Int64]) (variables ds))
  ∧ (∀ e, dataset_to_table_schema ds = Raise e → e = ValueError).
Proof.
  intros Hnd. split.
  - split.
    + intros [fields Hf].
      unfold dataset_to_table_schema in Hf.
      destruct (mapM (schema_field ds) (variables ds).*1) as [req|] eqn:Hm;
        [|done].
      apply mapM_Ok_Forall2 in Hm.
      apply Forall_forall. intros [name v] Hin.
      assert (name ∈ (variables ds).*1) as [i Hi]%list_elem_of_lookup.
      { apply list_elem_of_fmap. by exists (name, v). }
      destruct (Forall2_lookup_l _ _ _ _ _ Hm Hi) as (f & _ & Hfield).
      apply schema_field_Ok in Hfield as (_ & _ & _ & w & Hw & Hsize & Hsql).
      rewrite (var_lookup_NoDup name v) in Hw by done.
      injection Hw as <-. split; [done|].
      apply map_dtype_to_sql_type_ok. by eexists.
    + intros Hall. unfold dataset_to_table_schema.
      assert (is_ok (mapM (schema_field ds) (variables ds).*1)) as [req ->];
        [|by eexists].
      assert (Forall (λ column, is_ok (schema_field ds column))
                (variables ds).*1) as Hok.
      { apply Forall_fmap. eapply Forall_impl.
        - apply Forall_forall. intros nv Hin.
          exact (conj Hin (proj1 (Forall_forall _ _) Hall nv Hin)).
        - intros [name v] (Hin & Hsize & Hdt). cbn [fst snd] in *.
          unfold schema_field, compose. cbn [fst].
          rewrite (var_lookup_NoDup name v) by done.
          apply Nat.eqb_neq in Hsize. rewrite Hsize. cbn [negb].
          apply map_dtype_to_sql_type_ok in Hdt as [sql ->].
          by eexists. }
      clear -Hok. induction Hok as [|column cols [f Hf] _ [req IH]].
      * by eexists.
      * cbn [mapM]. rewrite Hf, IH. by eexists.
  - intros e. unfold dataset_to_table_schema.
    destruct (mapM (schema_field ds) (variables ds).*1) as [req|e'] eqn:Hm;
      [done|].
    cbn [mbind result_bind]. intros [= <-].
    apply mapM_raises_elem in Hm as (column & Hin & Hf).
    by eapply schema_field_raises.
Qed.

Lemma table_schema_succeeds_iff_witness :
  ¬ is_ok (dataset_to_table_schema
             (mkDataset [("latitude", mkXrVariable 2 Float32);
                         ("flag", mkXrVariable 2 BoolDtype)]))
  ∧ dataset_to_table_schema
      (mkDataset [("latitude", mkXrVariable 2 Float32);
                  ("empty", mkXrVariable 0 Float32)])
    = Raise ValueError.
Proof.
  split.
  - intros Hok.
    destruct (table_schema_succeeds_iff
                (mkDataset [("latitude", mkXrVariable 2 Float32);
                            ("flag", mkXrVariable 2 BoolDtype)]))
      as [[Hshape _] _].
    { apply (bool_decide_unpack _). by vm_compute. }
    apply Hshape in Hok.
    apply Forall_cons in Hok as [_ Hok].
    apply Forall_cons in Hok as [[_ Hdt] _].
    cbn in Hdt.
    repeat (apply elem_of_cons in Hdt as [Hdt|Hdt]; [discriminate Hdt|]).
    by apply elem_of_nil in Hdt.
  - done.
Defined.

(** X20: a produced schema has pairwise distinct column names exactly
    when the variable names are distinct and none of them is
    [data_import_time]; a variable of that name is neither rejected nor
    renamed. *)
Theorem table_schema_names_distinct_iff ds fields :
  dataset_to_table_schema ds = Ok fields →
  field_name <$> fields = (variables ds).*1 ++ [DATA_IMPORT_TIME_COLUMN]
  ∧ (NoDup (field_name <$> fields) ↔
     NoDup (variables ds).*1
     ∧ DATA_IMPORT_TIME_COLUMN ∉ (variables ds).*1).
Proof.
  intros Hf.
  assert (field_name <$> fields
          = (variables ds).*1 ++ [DATA_IMPORT_TIME_COLUMN]) as Hnames.
  { unfold dataset_to_table_schema in Hf.
    destruct (mapM (schema_field ds) (variables ds).*1) as [req|] eqn:Hm;
      [|done].
    cbn [mbind result_bind] in Hf. injection Hf as <-.
    rewrite fmap_app. f_equal.
    apply mapM_Ok_Forall2 in Hm.
    apply list_eq_Forall2. apply Forall2_fmap_l, Forall2_flip.
    eapply Forall2_impl; [exact Hm|].
    intros column f Hfield. by apply schema_field_Ok in Hfield as (-> & _). }
  split; [done|]. rewrite Hnames, NoDup_app. split.
  - intros (Hnd & Hdisj & _). split; [done|].
    intros Hin. apply (Hdisj _ Hin). left.
  - intros [Hnd Hnotin]. split_and!; [done| |apply NoDup_singleton].
    intros x Hx ->%list_elem_of_singleton. done.
Qed.

Lemma table_schema_names_distinct_iff_witness :
  ¬ NoDup (field_name
           <$> [mkSchemaField "data_import_time" "INT64" "REQUIRED";
                mkSchemaField "data_import_time" "TIMESTAMP" "NULLABLE"]).
Proof.
  destruct (table_schema_names_distinct_iff
              (mkDataset [("data_import_time", mkXrVariable 4 Int64)])
              _ eq_refl) as [_ [H _]].
  intros Hnd. apply H in Hnd as [_ Hnotin]. apply Hnotin. left.
Defined.






(** ** Rows *)

Lemma to_json_converted isoformat value c :
  to_json_serializable_type isoformat value = Ok c →
  converted c ∧ to_json_serializable_type isoformat c = Ok c.
Proof.
  destruct value as [| | | | | | |[wall [[name offset]|]]| | |];
    cbn; try (by intros [= <-]).
  destruct (String.eqb name ""); cbn; [done|by intros [= <-]].
Qed.

(** X22: the result of [to_json_serializable_type] is never a
    [pd.Timestamp], a [np.float32] or a [np.float64], and applying the
    function again changes nothing; every value of another type, a
    [np.float16] or [np.longdouble] included, is returned as it is; a naive
    timestamp is rendered as the same wall-clock reading in UTC; the only
    failure is the [TypeError] of localizing a tz-aware timestamp whose
    zone has an empty name. *)
Theorem to_json_serializable_type_converts isoformat value :
  (∀ c, to_json_serializable_type isoformat value = Ok c →
        converted c ∧ to_json_serializable_type isoformat c = Ok c)
  ∧ (converted value → to_json_serializable_type isoformat value = Ok value)
  ∧ to_json_serializable_type isoformat (CNpFloat16 (FFinite 1 0))
    = Ok (CNpFloat16 (FFinite 1 0))
  ∧ (∀ wall,
       to_json_serializable_type isoformat (CTimestamp (mkTimestamp wall None))
       = to_json_serializable_type isoformat
           (CTimestamp (mkTimestamp wall (Some UTC))))
  ∧ (∀ e, to_json_serializable_type isoformat value = Raise e →
          e = TypeError
          ∧ ∃ wall offset,
              value = CTimestamp (mkTimestamp wall (Some (mkTzInfo "" offset)))).
Proof.
  split_and!.
  - intros c. apply to_json_converted.
  - by destruct value.
  - done.
  - done.
  - intros e. destruct value as [| | | | | | |[wall [[name offset]|]]| | |];
      cbn; try done.
    destruct (String.eqb name "") eqn:E; cbn; [|done].
    apply String.eqb_eq in E as ->. intros [= <-]. eauto.
Qed.

Lemma row_get_set_eq k v r : row_get k (row_set k v r) = Some v.
Proof.
  induction r as [|[k' v'] r IH]; cbn [row_set row_get].
  - by rewrite String.eqb_refl.
  - destruct (String.eqb k k') eqn:E; cbn [row_get]; rewrite E; done.
Qed.

Lemma serialize_row_lookup isoformat r r' k v :
  serialize_row isoformat r = Ok r' →
  row_get k r = Some v →
  ∃ c, to_json_serializable_type isoformat v = Ok c ∧ row_get k r' = Some c.
Proof.
  unfold serialize_row. revert r'.
  induction r as [|[k0 v0] r IH]; intros r'; [done|]. cbn [mapM fst snd].
  destruct (to_json_serializable_type isoformat v0) as [c0|] eqn:Hc0; [|done].
  cbn [mbind result_bind].
  destruct (mapM _ r) as [rest|] eqn:Hrest; [|done].
  cbn [mbind result_bind]. intros [= <-]. cbn [row_get].
  destruct (String.eqb k k0); [intros [= <-]; eauto|].
  by apply IH.
Qed.

Lemma serialize_row_cells isoformat r r' :
  serialize_row isoformat r = Ok r' →
  r'.*1 = r.*1 ∧ Forall (λ kv, converted kv.2) r'.
Proof.
  unfold serialize_row. revert r'.
  induction r as [|[k0 v0] r IH]; intros r'; cbn [mapM fst snd].
  - by intros [= <-].
  - destruct (to_json_serializable_type isoformat v0) as [c0|] eqn:Hc0;
      [|done].
    cbn [mbind result_bind].
    destruct (mapM _ r) as [rest|] eqn:Hrest; [|done].
    cbn [mbind result_bind]. intros [= <-].
    destruct (IH rest eq_refl) as [Hkeys Hcells]. split.
    + rewrite !fmap_cons. by f_equal.
    + constructor; [|done].
      by apply to_json_converted in Hc0 as [? _].
Qed.

Lemma extract_row_stamped isoformat data_ds import_time index_values r :
  extract_row isoformat data_ds import_time index_values = Ok r →
  (∃ c, to_json_serializable_type isoformat import_time = Ok c
        ∧ row_get DATA_IMPORT_TIME_COLUMN r = Some c)
  ∧ Forall (λ kv, converted kv.2) r.
Proof.
  unfold extract_row.
  destruct (iter_index_entry index_values) as [values|]; [|done].
  cbn [mbind result_bind].
  destruct (data_vars_at data_ds _) as [vars_dict|]; [|done].
  cbn [mbind result_bind]. intros Hser. split.
  - eapply serialize_row_lookup; [exact Hser|]. apply row_get_set_eq.
  - by apply serialize_row_cells in Hser as [_ ?].
Qed.

Lemma extract_rows_loop_spec isoformat data_ds import_time entries counters :
  let '(rows, err, counters') :=
    extract_rows_loop isoformat data_ds import_time entries counters in
  Forall2 (λ index_values r,
             extract_row isoformat data_ds import_time index_values = Ok r)
    (take (length rows) entries) rows
  ∧ counters' = mkCounters (read_success counters) (read_failure counters)
                  (rows_success counters + length rows)
  ∧ match err with
    | None => length rows = length entries
    | Some e =>
        ∃ index_values,
          entries !! length rows = Some index_values
          ∧ extract_row isoformat data_ds import_time index_values = Raise e
    end.
Proof.
  revert counters.
  induction entries as [|index_values entries IH]; intros counters;
    cbn [extract_rows_loop].
  - split_and!; [constructor| |done].
    destruct counters. cbn. f_equal. lia.
  - destruct (extract_row isoformat data_ds import_time index_values)
      as [r|e] eqn:Hrow.
    + specialize (IH (mkCounters (read_success counters)
                        (read_failure counters) (S (rows_success counters)))).
      destruct (extract_rows_loop _ _ _ entries _) as [[rows err] c'].
      destruct IH as (Hrows & -> & Herr). cbn [length take].
      split_and!.
      * by constructor.
      * cbn. f_equal. lia.
      * destruct err as [e|]; [done|]. by rewrite Herr.
    + split_and!; [constructor| |].
      * destruct counters. cbn. f_equal. lia.
      * by exists index_values.
Qed.

(** X23: every row [extract_rows_as_dicts] yields binds
    [data_import_time] to the JSON form of the import time, whatever the
    dataset's own columns are called, and holds no [pd.Timestamp],
    [np.float32] or [np.float64]. *)
Theorem extracted_rows_are_stamped isoformat gcs_open xr_open_dataset view
    uri import_time counters r :
  r ∈ (extract_rows_as_dicts isoformat gcs_open xr_open_dataset view uri
         import_time counters).1.1 →
  (∃ c, to_json_serializable_type isoformat import_time = Ok c
        ∧ row_get DATA_IMPORT_TIME_COLUMN r = Some c)
  ∧ Forall (λ kv, converted kv.2) r.
Proof.
  unfold extract_rows_as_dicts.
  destruct (open_dataset gcs_open xr_open_dataset uri counters)
    as [[ds|e] c0]; [|by intros ?%elem_of_nil].
  pose proof (extract_rows_loop_spec isoformat (view ds) import_time
                (index (view ds)) c0) as Hspec.
  destruct (extract_rows_loop _ _ _ _ _) as [[rows err] c'].
  destruct Hspec as (Hrows & _ & _). cbn [fst].
  intros [i Hi]%list_elem_of_lookup.
  destruct (Forall2_lookup_r _ _ _ _ _ Hrows Hi) as (iv & _ & Hrow).
  by eapply extract_row_stamped.
Qed.


Lemma extracted_rows_are_stamped_witness :
  let r := [("latitude", CFloat (FFinite 88 0));
            ("longitude", CFloat (FFinite 2 0));
            ("z", CFloat (FFinite 1 0));
            ("data_import_time", CStr "1970-01-01T00:00:00+00:00")] in
  (∃ c, to_json_serializable_type example_isoformat
          (CTimestamp (mkTimestamp 0 None)) = Ok c
        ∧ row_get DATA_IMPORT_TIME_COLUMN r = Some c)
  ∧ Forall (λ kv, converted kv.2) r.
Proof.
  intros r.
  apply (extracted_rows_are_stamped example_isoformat (λ _, Ok [])
           (λ _, Ok (mkDataset [])) (λ _, example_view) "gs://bucket/era5.nc"
           (CTimestamp (mkTimestamp 0 None)) (mkCounters 0 0 0) r).
  apply list_elem_of_lookup. exists 0. by vm_compute.
Defined.

(** X28: on a dataset with one dimension, whose index entries are bare
    values rather than tuples, [extract_rows_as_dicts] yields no row: at
    the first entry that is not a string, [zip] cannot iterate it and the
    generator ends with a [TypeError]. *)
Theorem extract_rows_rejects_scalar_index isoformat gcs_open xr_open_dataset
    view uri import_time counters ds value rest :
  (open_dataset gcs_open xr_open_dataset uri counters).1 = Ok ds →
  index (view ds) = IScalar value :: rest →
  (∀ s, value ≠ CStr s) →
  (extract_rows_as_dicts isoformat gcs_open xr_open_dataset view uri
     import_time counters).1 = ([], Some TypeError).
Proof.
  intros Hopen Hindex Hvalue. unfold extract_rows_as_dicts.
  destruct (open_dataset gcs_open xr_open_dataset uri counters)
    as [[ds'|e] c0]; cbn [fst] in Hopen; [|done].
  injection Hopen as ->. rewrite Hindex. cbn [extract_rows_loop].
  unfold extract_row. cbn [iter_index_entry].
  destruct value; try done. by destruct (Hvalue s).
Qed.

Lemma extract_rows_rejects_scalar_index_witness :
  (extract_rows_as_dicts example_isoformat (λ _, Ok [])
     (λ _, Ok (mkDataset [])) (λ _, one_dimensional_view)
     "gs://bucket/era5.nc" (CTimestamp (mkTimestamp 0 None))
     (mkCounters 0 0 0)).1 = ([], Some TypeError).
Proof.
  apply (extract_rows_rejects_scalar_index example_isoformat (λ _, Ok [])
           (λ _, Ok (mkDataset [])) (λ _, one_dimensional_view)
           "gs://bucket/era5.nc" (CTimestamp (mkTimestamp 0 None))
           (mkCounters 0 0 0) (mkDataset [])
           (CNpFloat32 (FFinite 88 0)) [IScalar (CNpFloat32 (FFinite 89 0))]);
    done.
Defined.

(** ** The expander and the fetch step together *)

(** X25: for every Partition the Expander yields, [fetch_data] names the
    Target and opens its transaction on exactly the key of the
    [manifest.schedule] call that preceded the [yield]: the same
    selection, target and user, whatever the user is. *)
Theorem fetch_transacts_on_scheduled_key config store pre out post :
  (prepare_partition config store).1 = pre ++ Yielded out :: post →
  ∃ pre' sel target user,
    pre = pre' ++ [Scheduled sel target user]
    ∧ ∀ M (HM : Manifest M) client (m : M) store',
        fetch_data out client m store'
        = with_transact sel target user
            (fetch_body
               (dict_get_default "dataset" (VStr "") (parameters out))
               sel target client store') m.
Proof.
  intros Heq.
  pose proof (prepare_partition_registered config store) as Hreg.
  destruct (registered_yield_preceded _ _ _ _ _ Hreg Heq)
    as (pre' & sel & target & -> & Hsel & Hname & _).
  exists pre', sel, target, (user_of out). split; [done|].
  intros M HM client m store'.
  by apply fetch_data_transact.
Qed.

Lemma fetch_transacts_on_scheduled_key_witness :
  let store := store_with ["data-2020.nc"] in
  let out := make_out two_groups_config (<["year" := ["2021"]]> ∅) group_b in
  ∃ pre' sel target user,
    [Scheduled (<["year" := ["2021"]]> ∅) "data-2021.nc" (VStr "unknown")]
    = pre' ++ [Scheduled sel target user]
    ∧ ∀ M (HM : Manifest M) client (m : M) store',
        fetch_data out client m store'
        = with_transact sel target user
            (fetch_body
               (dict_get_default "dataset" (VStr "") (parameters out))
               sel target client store') m.
Proof.
  intros store out.
  apply (fetch_transacts_on_scheduled_key two_groups_config store _ out []).
  by vm_compute.
Defined.

Lemma emit_all_skipped store outs :
  Forall (λ out, skip_partition out store = Ok true) outs →
  emit store outs = ([], None).
Proof.
  induction 1 as [|out outs Hskip _ IH]; cbn [emit]; [done|].
  by rewrite Hskip.
Qed.

(** X26: when the skip check answers true for every candidate, as in a
    second run over a Store that already holds every Target, the Expander
    finishes without an exception, yields nothing and schedules
    nothing. *)
Theorem expander_skips_everything config store keys pools :
  partition_keys_of config = Ok keys →
  Forall2 (λ key pool, selection_of config !! key = Some pool) keys pools →
  Forall (λ out, skip_partition out store = Ok true) (candidates config) →
  prepare_partition config store = ([], None).
Proof.
  intros Hk Hp Hall.
  destruct (prepare_partition_setup config store keys pools Hk
              (pools_of_lookups _ _ _ Hp)) as [_ ->].
  by apply emit_all_skipped.
Qed.

Lemma expander_skips_everything_witness :
  prepare_partition two_groups_config
    (store_with ["data-2020.nc"; "data-2021.nc"]) = ([], None).
Proof.
  apply (expander_skips_everything two_groups_config _ ["year"]
           [["2020"; "2021"]]).
  - done.
  - by repeat constructor.
  - by repeat constructor.
Defined.

(** X27: the Expander never yields more Partitions than there are
    combinations of the value sequences, whether or not candidates are
    skipped or an exception ends it. *)
Theorem expander_yields_at_most_product config store keys pools :
  partition_keys_of config = Ok keys →
  Forall2 (λ key pool, selection_of config !! key = Some pool) keys pools →
  length (yielded (prepare_partition config store).1)
  ≤ foldr Nat.mul 1 (length <$> pools).
Proof.
  intros Hk Hp.
  rewrite <- length_product, <- (length_candidates_of config keys pools).
  rewrite <- (candidates_setup _ _ _ Hk Hp).
  apply sublist_length, prepare_partition_sublist.
Qed.

Lemma expander_yields_at_most_product_witness :
  length (yielded (prepare_partition two_groups_config
                     (store_with ["data-2020.nc"])).1) ≤ 2 * 1.
Proof.
  apply (expander_yields_at_most_product two_groups_config
           (store_with ["data-2020.nc"]) ["year"] [["2020"; "2021"]]).
  - done.
  - by repeat constructor.
Defined.
